(** * E-commerce revenue and profit dashboard (app.py)

    A shallow embedding of the loader [load_data], of what the script of
    [app.py] computes for the sidebar and of the filter and aggregation
    script that follows, together with the pandas operations they call.

    Conventions of the model:
    - a cell of a table is a missing value ([NaN], which also stands for
      [NaT] and [None]), a number, a string or a timestamp;
    - numbers are exact rationals ([Qc]); rounding, overflow and the
      infinities of binary floating point are outside the model;
    - a timestamp is given by its calendar fields and the time elapsed
      since midnight; timestamps compare lexicographically on these;
    - a [DataFrame] is the list of its column labels and the list of its
      rows, a row mapping a label to a cell;
    - frames are objects of a heap and variables hold references, so that
      sharing and in-place assignment ([df[col] = ...]) are visible;
    - a Python exception is the [Raise] outcome of a computation; the script
      stops there, and a run that raises returns no heap. *)

From Stdlib Require Import QArith Qcanon ZArith Ascii String.
From stdpp Require Import base numbers list strings sorting pretty.

Local Open Scope Z_scope.
Local Open Scope Qc_scope.

(** ** Dates and timestamps *)

Record Date := mkDate { d_year : Z; d_month : Z; d_day : Z }.

Record Timestamp := mkTs { year : Z; month : Z; day : Z; nanos : Z }.

Global Instance Date_eq_dec : EqDecision Date.
Proof. solve_decision. Defined.

Global Instance Timestamp_eq_dec : EqDecision Timestamp.
Proof. solve_decision. Defined.

(** [pd.to_datetime(d)] for a [datetime.date]: midnight of that day. *)
Definition to_datetime (d : Date) : Timestamp :=
  mkTs (d_year d) (d_month d) (d_day d) 0.

(** [Timestamp.date()]. *)
Definition date_of (t : Timestamp) : Date :=
  mkDate (year t) (month t) (day t).

Definition lex (c1 c2 : comparison) : comparison :=
  match c1 with Eq => c2 | _ => c1 end.

Definition ts_compare (a b : Timestamp) : comparison :=
  lex (year a ?= year b)%Z
    (lex (month a ?= month b)%Z
       (lex (day a ?= day b)%Z (nanos a ?= nanos b)%Z)).

Definition ts_leb (a b : Timestamp) : bool :=
  match ts_compare a b with Gt => false | _ => true end.

Definition ts_le (a b : Timestamp) : Prop := ts_leb a b = true.

Global Instance ts_le_dec a b : Decision (ts_le a b).
Proof. unfold ts_le. apply _. Defined.

(** Months are counted from year 0: the bucket of a timestamp. *)
Definition month_index (t : Timestamp) : Z := 12 * year t + (month t - 1).

Definition index_year (i : Z) : Z := i `div` 12.
Definition index_month (i : Z) : Z := i `mod` 12 + 1.

Definition is_leap (y : Z) : bool :=
  ((y `mod` 4 =? 0) && negb (y `mod` 100 =? 0) || (y `mod` 400 =? 0))%Z.

Definition days_in_month (y m : Z) : Z :=
  if (m =? 2)%Z then (if is_leap y then 29 else 28)
  else if ((m =? 4) || (m =? 6) || (m =? 9) || (m =? 11))%Z then 30
  else 31.

(** The label of a month-end bin ([freq="M"]): the last day of the month. *)
Definition month_end (i : Z) : Timestamp :=
  mkTs (index_year i) (index_month i)
       (days_in_month (index_year i) (index_month i)) 0.

(** [.dt.to_period("M").dt.to_timestamp()]: the first day of the month. *)
Definition month_start (t : Timestamp) : Timestamp :=
  mkTs (year t) (month t) 1 0.

(** [strftime("%Y-%m")]; the years of pandas timestamps have four digits. *)
Definition strftime_Ym (t : Timestamp) : string :=
  (pretty (year t) +:+ "-" +:+
   (if (month t <? 10)%Z then "0" else "") +:+ pretty (month t))%string.

(** ** Cells, series and frames *)

(** An integer and a count as numbers. *)
Definition Qc_of_Z (z : Z) : Qc := Q2Qc (inject_Z z).
Definition Qc_of_nat (n : nat) : Qc := Qc_of_Z (Z.of_nat n).

Inductive Cell :=
  | NaN
  | Num (q : Qc)
  | Str (s : string)
  | Ts (t : Timestamp).

Global Instance Cell_eq_dec : EqDecision Cell.
Proof. solve_decision. Defined.

Abbreviation Series := (list Cell).
Abbreviation Row := (string → Cell).

Record DataFrame := mkDF { columns : list string; rows : list Row }.

Definition isna (c : Cell) : bool :=
  match c with NaN => true | _ => false end.

Definition update (r : Row) (c : string) (v : Cell) : Row :=
  λ c', if String.eqb c' c then v else r c'.

Fixpoint mkrow (kvs : list (string * Cell)) : Row :=
  match kvs with
  | [] => λ _, NaN
  | (c, v) :: kvs => update (mkrow kvs) c v
  end.

(** ** Outcomes *)

Inductive Error :=
  | KeyError (c : string)
  | IndexError
  | TypeError
  | AttributeError
  | ValueError
  | ZeroDivisionError
  | NameError.

Inductive result (A : Type) :=
  | Ok (a : A)
  | Raise (e : Error).
Arguments Ok {A} a.
Arguments Raise {A} e.

Definition rbind {A B} (m : result A) (f : A → result B) : result B :=
  match m with Ok a => f a | Raise e => Raise e end.

Notation "'let?' x := m 'in' k" := (rbind m (λ x, k))
  (at level 10, x name, m at level 100, k at level 200,
   format "'[v' 'let?'  x  :=  m  'in' '/' k ']'").

Fixpoint traverse {A B} (f : A → result B) (l : list A) : result (list B) :=
  match l with
  | [] => Ok []
  | x :: l => let? y := f x in let? ys := traverse f l in Ok (y :: ys)
  end.

(** ** pandas operations on values *)

(** [df[c]] *)
Definition column (d : DataFrame) (c : string) : result Series :=
  if bool_decide (c ∈ columns d) then Ok ((λ r : Row, r c) <$> rows d)
  else Raise (KeyError c).

(** [df[c] = s] *)
Definition set_column (d : DataFrame) (c : string) (s : Series)
  : result DataFrame :=
  if bool_decide (length s = length (rows d)) then
    Ok (mkDF (if bool_decide (c ∈ columns d) then columns d
              else columns d ++ [c])
             (zip_with (λ r v, update r c v) (rows d) s))
  else Raise ValueError.

(** [s.fillna(v)] *)
Definition fillna (v : Cell) (s : Series) : Series :=
  (λ c, if isna c then v else c) <$> s.

(** The [.dt] accessor: only for datetime-like series. *)
Definition dt_value (c : Cell) : result (option Timestamp) :=
  match c with
  | Ts t => Ok (Some t)
  | NaN => Ok None
  | _ => Raise AttributeError
  end.

Definition dt (s : Series) : result (list (option Timestamp)) :=
  traverse dt_value s.

Definition of_dt (o : option Timestamp) : Cell :=
  match o with Some t => Ts t | None => NaN end.

(** [s.dt.to_period("M").dt.to_timestamp()] *)
Definition dt_month_start (s : Series) : result Series :=
  let? ts := dt s in
  Ok ((λ o : option Timestamp, of_dt (month_start <$> o)) <$> ts).

(** [s.dt.strftime("%Y-%m")] *)
Definition dt_strftime_Ym (s : Series) : result Series :=
  let? ts := dt s in
  Ok ((λ o : option Timestamp,
         match o with Some t => Str (strftime_Ym t) | None => NaN end) <$> ts).

(** [s >= t] and [s <= t] for a timestamp [t]: a missing date compares
    false, a cell that is no date raises. *)
Definition cmp_ts (p : Timestamp → bool) (c : Cell) : result bool :=
  match c with
  | Ts x => Ok (p x)
  | NaN => Ok false
  | _ => Raise TypeError
  end.

Definition series_ge (s : Series) (t : Timestamp) : result (list bool) :=
  traverse (cmp_ts (λ x, ts_leb t x)) s.

Definition series_le (s : Series) (t : Timestamp) : result (list bool) :=
  traverse (cmp_ts (λ x, ts_leb x t)) s.

(** [s.isin(values)] *)
Definition isin (s : Series) (values : list Cell) : list bool :=
  (λ c, bool_decide (c ∈ values)) <$> s.

(** [m1 & m2] *)
Definition mask_and (m1 m2 : list bool) : list bool := zip_with andb m1 m2.

(** [df[mask]] *)
Fixpoint select {A} (l : list A) (mask : list bool) : list A :=
  match l, mask with
  | x :: l, b :: mask => if b then x :: select l mask else select l mask
  | _, _ => []
  end.

Definition boolean_index (d : DataFrame) (mask : list bool) : DataFrame :=
  mkDF (columns d) (select (rows d) mask).

(** [s.sum()]: missing values are skipped, other non-numbers raise. *)
Fixpoint series_sum (s : Series) : result Qc :=
  match s with
  | [] => Ok 0
  | Num q :: s => let? t := series_sum s in Ok (q + t)
  | NaN :: s => series_sum s
  | _ :: _ => Raise TypeError
  end.

(** [s.nunique()]: the number of distinct values, missing ones apart. *)
Definition nunique (s : Series) : nat :=
  length (remove_dups (filter (λ c, c ≠ NaN) s)).

(** [df.head(n)] *)
Definition head (d : DataFrame) (n : nat) : DataFrame :=
  mkDF (columns d) (take n (rows d)).

(** *** Grouping *)

(** The order pandas sorts group labels in: numbers before strings,
    numbers by value, strings by code point, tuples lexicographically. *)
Definition cell_rank (c : Cell) : Z :=
  match c with Num _ => 0 | Str _ => 1 | Ts _ => 2 | NaN => 3 end.

Definition cell_leb (a b : Cell) : bool :=
  match a, b with
  | Num x, Num y => bool_decide (x ≤ y)
  | Str x, Str y => String.leb x y
  | Ts x, Ts y => ts_leb x y
  | _, _ => (cell_rank a <=? cell_rank b)%Z
  end.

Fixpoint key_leb (a b : list Cell) : bool :=
  match a, b with
  | [], _ => true
  | _ :: _, [] => false
  | x :: a, y :: b => if bool_decide (x = y) then key_leb a b else cell_leb x y
  end.

Definition key_le (a b : list Cell) : Prop := key_leb a b = true.

Global Instance key_le_dec a b : Decision (key_le a b).
Proof. unfold key_le. apply _. Defined.

(** [("Revenue", "sum")] and [("InvoiceNo", "nunique")] *)
Inductive AggFunc := agg_sum | agg_nunique.

(** A named aggregation [out=(col, func)]. *)
Record NamedAgg := named { agg_out : string; agg_col : string; agg_func : AggFunc }.

Definition key_of (by_ : list string) (r : Row) : list Cell :=
  (λ c, r c) <$> by_.

(** The labels of the groups: rows with a missing label are dropped
    ([dropna=True]), the labels are sorted ([sort=True]). *)
Definition group_keys (by_ : list string) (rs : list Row) : list (list Cell) :=
  merge_sort key_le (remove_dups (filter (λ k, NaN ∉ k) (key_of by_ <$> rs))).

Definition members (by_ : list string) (rs : list Row) (k : list Cell)
  : list Row :=
  filter (λ r, key_of by_ r = k) rs.

Definition aggregate (f : AggFunc) (s : Series) : result Cell :=
  match f with
  | agg_sum => let? t := series_sum s in Ok (Num t)
  | agg_nunique => Ok (Num (Qc_of_nat (nunique s)))
  end.

(** One row of the aggregated frame: the label, then the aggregates. *)
Definition agg_row (by_ : list string) (aggs : list NamedAgg)
    (k : list Cell) (g : list Row) : result Row :=
  let? vals := traverse (λ a, aggregate (agg_func a)
                                ((λ r : Row, r (agg_col a)) <$> g)) aggs in
  Ok (mkrow (zip by_ k ++ zip (agg_out <$> aggs) vals)).

Fixpoint check_columns (d : DataFrame) (cs : list string) : result unit :=
  match cs with
  | [] => Ok ()
  | c :: cs => if bool_decide (c ∈ columns d) then check_columns d cs
               else Raise (KeyError c)
  end.

(** [df.groupby(by).agg(...).reset_index()] *)
Definition groupby_agg (d : DataFrame) (by_ : list string)
    (aggs : list NamedAgg) : result DataFrame :=
  let? _ := check_columns d (by_ ++ (agg_col <$> aggs)) in
  if bool_decide (NoDup (by_ ++ (agg_out <$> aggs))) then
    let? rs := traverse (λ k, agg_row by_ aggs k (members by_ (rows d) k))
                        (group_keys by_ (rows d)) in
    Ok (mkDF (by_ ++ (agg_out <$> aggs)) rs)
  else Raise ValueError.

(** The month of a cell of a datetime column, if it has a date. *)
Definition cell_month (c : Cell) : option Z :=
  match c with Ts t => Some (month_index t) | _ => None end.

(** The bins of [pd.Grouper(freq="M")]: every month from the earliest to
    the latest one present, the months without rows included. *)
Definition month_bins (ms : list Z) : list Z :=
  match ms with
  | [] => []
  | m :: ms' =>
      let lo := foldr Z.min m ms' in
      let hi := foldr Z.max m ms' in
      seqZ lo (hi - lo + 1)
  end.

(** [df.groupby(pd.Grouper(key=key, freq="M")).agg(...).reset_index()]:
    rows without a date are dropped; the label of a bin is its month end. *)
Definition groupby_month (d : DataFrame) (key : string)
    (aggs : list NamedAgg) : result DataFrame :=
  let? _ := check_columns d (agg_col <$> aggs) in
  let? s := column d key in
  let? _ := dt s in
  if bool_decide (NoDup (key :: (agg_out <$> aggs))) then
    let? rs := traverse
      (λ b, agg_row [key] aggs [Ts (month_end b)]
                    (filter (λ r : Row, cell_month (r key) = Some b) (rows d)))
      (month_bins (omap cell_month s)) in
    Ok (mkDF (key :: (agg_out <$> aggs)) rs)
  else Raise ValueError.

(** *** Sorting *)

Definition as_number (c : Cell) : result Qc :=
  match c with Num q => Ok q | _ => Raise TypeError end.

(** [df.take(indexer)] *)
Definition take_rows (d : DataFrame) (indexer : list nat) : DataFrame :=
  mkDF (columns d) (omap (λ i, rows d !! i) indexer).

(** Position [i] may stand right before [j] when [vs] is sorted downwards. *)
Definition descending (vs : list Qc) : relation nat :=
  λ i j, default 0 (vs !! j) ≤ default 0 (vs !! i).

Global Instance descending_dec vs i j : Decision (descending vs i j).
Proof. unfold descending. apply _. Defined.

(** What pandas promises of [sort_values(..., ascending=False)] with its
    default [kind="quicksort"]: the indexer is a permutation of the
    positions and the values it selects never increase. The order of
    equal values is left to the sorting routine, which is not stable. *)
Record ArgsortDesc (argsort : list Qc → list nat) : Prop := {
  argsort_perm : ∀ vs, argsort vs ≡ₚ seq 0 (length vs);
  argsort_sorted : ∀ vs, Sorted (descending vs) (argsort vs)
}.

(** ** The heap of frames *)

Abbreviation loc := nat (only parsing).
Abbreviation Heap := (list DataFrame).

(** A computation: runs on a heap, raises or returns a value and a heap. *)
Definition M (A : Type) : Type := Heap → result (A * Heap).

Definition ret {A} (a : A) : M A := λ h, Ok (a, h).

Definition bind {A B} (m : M A) (f : A → M B) : M B := λ h,
  match m h with
  | Ok (a, h') => f a h'
  | Raise e => Raise e
  end.

Notation "'let*' x := m 'in' k" := (bind m (λ x, k))
  (at level 10, x name, m at level 100, k at level 200,
   format "'[v' 'let*'  x  :=  m  'in' '/' k ']'").

Definition lift {A} (r : result A) : M A := λ h,
  match r with Ok a => Ok (a, h) | Raise e => Raise e end.

(** A new object; its reference is the next free address. *)
Definition new (d : DataFrame) : M loc := λ h, Ok (length h, h ++ [d]).

Definition deref (r : loc) : M DataFrame := λ h,
  match h !! r with Some d => Ok (d, h) | None => Raise NameError end.

(** In-place change of the object at [r]. *)
Definition assign (r : loc) (d : DataFrame) : M unit := λ h,
  match h !! r with
  | Some _ => Ok ((), <[r:=d]> h)
  | None => Raise NameError
  end.

(** ** pandas operations on references *)

(** [df[c]] *)
Definition getitem (df : loc) (c : string) : M Series :=
  let* d := deref df in lift (column d c).

(** [df[c] = s]: changes the frame [df] refers to. *)
Definition setitem (df : loc) (c : string) (s : Series) : M unit :=
  let* d := deref df in
  let* d' := lift (set_column d c s) in
  assign df d'.

(** [df[mask]]: a new frame. *)
Definition getitem_mask (df : loc) (mask : list bool) : M loc :=
  let* d := deref df in new (boolean_index d mask).

(** [df.copy()] *)
Definition copy (df : loc) : M loc :=
  let* d := deref df in new d.

(** [df.groupby(by).agg(...).reset_index()]: a new frame. *)
Definition groupby (df : loc) (by_ : list string) (aggs : list NamedAgg)
  : M loc :=
  let* d := deref df in
  let* g := lift (groupby_agg d by_ aggs) in
  new g.

(** [df.groupby(pd.Grouper(key=key, freq="M")).agg(...).reset_index()] *)
Definition groupby_grouper_M (df : loc) (key : string)
    (aggs : list NamedAgg) : M loc :=
  let* d := deref df in
  let* g := lift (groupby_month d key aggs) in
  new g.

(** [df.head(n)]: a new frame. *)
Definition df_head (df : loc) (n : nat) : M loc :=
  let* d := deref df in new (head d n).

(** [xs[i]] on a Python sequence. *)
Definition index {A} (xs : list A) (i : nat) : result A :=
  match xs !! i with Some x => Ok x | None => Raise IndexError end.

(** Truth values of an [int] and of a float. *)
Definition truthy_int (n : nat) : bool := negb (n =? 0)%nat.
Definition truthy_float (q : Qc) : bool := negb (bool_decide (q = 0)).

(** [a / b]; a zero divisor gives no number. *)
Definition truediv (a b : Qc) : result Qc :=
  if bool_decide (b = 0) then Raise ZeroDivisionError else Ok (a / b).

(** What the page shows: the values of the script's variables at its end. *)
Module View.
Record t := mk {
  df_f : DataFrame;
  total_revenue : Qc;
  total_profit : Qc;
  total_orders : nat;
  avg_order_value : Qc;
  profit_margin : Qc;
  monthly : DataFrame;
  prod : DataFrame;
  country : DataFrame;
  cust : DataFrame;
  sample : DataFrame
}.
End View.

Section App.

(** [pd.to_numeric(..., errors="coerce")] on one value: its number, or
    [None] where the value does not convert (a missing value included). *)
Variable coerce : Cell → option Qc.

(** The indexer [sort_values(by, ascending=False)] sorts with. *)
Variable argsort_desc : list Qc → list nat.

Definition to_numeric (s : Series) : Series :=
  (λ c, match coerce c with Some q => Num q | None => NaN end) <$> s.

(** [df.sort_values(by, ascending=False)]: a new frame. *)
Definition sort_values_desc (d : DataFrame) (by_ : string)
  : result DataFrame :=
  let? s := column d by_ in
  let? vs := traverse as_number s in
  Ok (take_rows d (argsort_desc vs)).

Definition sort_values (df : loc) (by_ : string) : M loc :=
  let* d := deref df in
  let* g := lift (sort_values_desc d by_) in
  new g.

(** *** [load_data] *)

Definition numeric_columns : list string :=
  ["Quantity"; "UnitPrice"; "Revenue"; "Cost"; "Profit"].

(** The loop over the numeric columns. *)
Fixpoint ensure_numeric (df : loc) (cols : list string) : M unit :=
  match cols with
  | [] => ret ()
  | col :: cols =>
      let* d := deref df in
      let* _ :=
        if bool_decide (col ∈ columns d) then
          let* s := getitem df col in
          setitem df col (fillna (Num 0) (to_numeric s))
        else ret () in
      ensure_numeric df cols
  end.

(** [sheet] is what [pd.read_excel(path, sheet_name="data",
    parse_dates=["InvoiceDate"])] has read. *)
Definition load_data (sheet : DataFrame) : M loc :=
  let* df := new sheet in
  let* _ := ensure_numeric df numeric_columns in
  let* s := getitem df "InvoiceDate" in
  let* m := lift (dt_month_start s) in
  let* _ := setitem df "Month" m in
  ret df.

(** *** The script, from "Apply filters" on

    [date_range], [country_sel] and [top_n] are what the sidebar widgets
    return. *)

Definition apply_filters (df : loc) (date_range : list Date)
    (country_sel : list Cell) : M loc :=
  let* d0 := lift (index date_range 0) in
  let* d1 := lift (index date_range 1) in
  let start_date := to_datetime d0 in
  let end_date := to_datetime d1 in
  let* s1 := getitem df "InvoiceDate" in
  let* ge := lift (series_ge s1 start_date) in
  let* s2 := getitem df "InvoiceDate" in
  let* le := lift (series_le s2 end_date) in
  let mask := mask_and ge le in
  let* mask :=
    match country_sel with
    | [] => ret mask
    | _ :: _ =>
        let* c := getitem df "Country" in
        ret (mask_and mask (isin c country_sel))
    end in
  let* selected := getitem_mask df mask in
  copy selected.

Record KPIs := mkKPIs {
  k_total_revenue : Qc;
  k_total_profit : Qc;
  k_total_orders : nat;
  k_avg_order_value : Qc;
  k_profit_margin : Qc
}.

Definition kpis (df_f : loc) : M KPIs :=
  let* revenue := getitem df_f "Revenue" in
  let* total_revenue := lift (series_sum revenue) in
  let* profit := getitem df_f "Profit" in
  let* total_profit := lift (series_sum profit) in
  let* invoice_no := getitem df_f "InvoiceNo" in
  let total_orders := nunique invoice_no in
  let* avg_order_value :=
    if truthy_int total_orders
    then lift (truediv total_revenue (Qc_of_nat total_orders))
    else ret 0 in
  let* profit_margin :=
    if truthy_float total_revenue
    then lift (truediv total_profit total_revenue)
    else ret 0 in
  ret (mkKPIs total_revenue total_profit total_orders
              avg_order_value profit_margin).

Definition monthly_trend (df_f : loc) : M loc :=
  let* monthly := groupby_grouper_M df_f "InvoiceDate"
                    [named "Revenue" "Revenue" agg_sum;
                     named "Profit" "Profit" agg_sum] in
  let* s := getitem monthly "InvoiceDate" in
  let* label := lift (dt_strftime_Ym s) in
  let* _ := setitem monthly "Month" label in
  ret monthly.

Definition top_products (df_f : loc) (top_n : nat) : M loc :=
  let* prod := groupby df_f ["StockCode"; "Description"]
                 [named "Revenue" "Revenue" agg_sum;
                  named "Profit" "Profit" agg_sum;
                  named "Quantity" "Quantity" agg_sum] in
  let* sorted := sort_values prod "Revenue" in
  df_head sorted top_n.

Definition revenue_by_country (df_f : loc) : M loc :=
  let* grouped := groupby df_f ["Country"]
                    [named "Revenue" "Revenue" agg_sum] in
  let* sorted := sort_values grouped "Revenue" in
  df_head sorted 15.

Definition top_customers (df_f : loc) (top_n : nat) : M loc :=
  let* grouped := groupby df_f ["CustomerID"]
                    [named "Revenue" "Revenue" agg_sum;
                     named "Orders" "InvoiceNo" agg_nunique] in
  let* sorted := sort_values grouped "Revenue" in
  df_head sorted top_n.

Definition dashboard (df : loc) (date_range : list Date)
    (country_sel : list Cell) (top_n : nat) : M View.t :=
  let* df_f := apply_filters df date_range country_sel in
  let* k := kpis df_f in
  let* monthly := monthly_trend df_f in
  let* prod := top_products df_f top_n in
  let* country := revenue_by_country df_f in
  let* cust := top_customers df_f top_n in
  let* sample := df_head df_f 200 in
  let* v_df_f := deref df_f in
  let* v_monthly := deref monthly in
  let* v_prod := deref prod in
  let* v_country := deref country in
  let* v_cust := deref cust in
  let* v_sample := deref sample in
  ret (View.mk v_df_f (k_total_revenue k) (k_total_profit k)
         (k_total_orders k) (k_avg_order_value k) (k_profit_margin k)
         v_monthly v_prod v_country v_cust v_sample).

End App.

(** *** The sidebar

    What the script computes for the widgets before it filters: the two
    ends of the date range it proposes, the countries it offers and the
    countries it preselects. *)

(** The smaller and the larger of two values: a missing value is skipped,
    values of different kinds do not compare. *)
Definition smaller (a b : Cell) : result Cell :=
  match a, b with
  | NaN, _ => Ok b
  | _, NaN => Ok a
  | Num x, Num y => Ok (if bool_decide (x ≤ y) then a else b)
  | Str x, Str y => Ok (if String.leb x y then a else b)
  | Ts x, Ts y => Ok (if ts_leb x y then a else b)
  | _, _ => Raise TypeError
  end.

Definition larger (a b : Cell) : result Cell :=
  match a, b with
  | NaN, _ => Ok b
  | _, NaN => Ok a
  | Num x, Num y => Ok (if bool_decide (x ≤ y) then b else a)
  | Str x, Str y => Ok (if String.leb x y then b else a)
  | Ts x, Ts y => Ok (if ts_leb x y then b else a)
  | _, _ => Raise TypeError
  end.

Fixpoint reduce (f : Cell → Cell → result Cell) (s : Series) : result Cell :=
  match s with
  | [] => Ok NaN
  | c :: s => let? m := reduce f s in f c m
  end.

(** [s.min()] and [s.max()]: [NaN] ([NaT] for dates) when no value is
    left. *)
Definition series_min (s : Series) : result Cell := reduce smaller s.
Definition series_max (s : Series) : result Cell := reduce larger s.

(** [t.date()] of what [min] or [max] returned: the day of a timestamp;
    [NaT.date()] is [NaT]; a number or a string has no such method. *)
Definition ts_date (c : Cell) : result (option Date) :=
  match c with
  | Ts t => Ok (Some (date_of t))
  | NaN => Ok None
  | _ => Raise AttributeError
  end.

(** The distinct values of a series in the order of their first
    occurrence, and the number of occurrences of a value. *)
Fixpoint unique (s : Series) : Series :=
  match s with
  | [] => []
  | c :: s => c :: filter (λ x, x ≠ c) (unique s)
  end.

Definition count (c : Cell) (s : Series) : nat :=
  length (filter (λ x, x = c) s).

Module Sidebar.
Record t := mk {
  min_date : option Date;
  max_date : option Date;
  options : list Cell;
  default : list Cell
}.
End Sidebar.

Section Sidebar.

(** The indexer [sort_values(ascending=False)] sorts with, as in the
    script. *)
Variable argsort_desc : list Qc → list nat.

(** [s.value_counts()]: the values with the number of their occurrences,
    missing values left out, sorted by that number downwards. *)
Definition value_counts (s : Series) : list (Cell * nat) :=
  let table := (λ c, (c, count c s)) <$> unique (filter (λ c, c ≠ NaN) s) in
  omap (λ i, table !! i) (argsort_desc ((λ p, Qc_of_nat p.2) <$> table)).

Definition sidebar (df : loc) : M Sidebar.t :=
  let* s := getitem df "InvoiceDate" in
  let* lo := lift (series_min s) in
  let* min_date := lift (ts_date lo) in
  let* s := getitem df "InvoiceDate" in
  let* hi := lift (series_max s) in
  let* max_date := lift (ts_date hi) in
  let* c := getitem df "Country" in
  let options := (value_counts c).*1 in
  let* c := getitem df "Country" in
  let default := take 3 (value_counts c).*1 in
  ret (Sidebar.mk min_date max_date options default).

End Sidebar.

(** *** The whole program

    [app.py] from top to bottom: the sheet is loaded, then the script runs
    on the loaded table with what the widgets returned. *)
Definition app (coerce : Cell → option Qc) (argsort : list Qc → list nat)
    (sheet : DataFrame) (date_range : list Date) (country_sel : list Cell)
    (top_n : nat) : M View.t :=
  let* df := load_data coerce sheet in
  dashboard argsort df date_range country_sel top_n.

(** *** The order count as the page prints it *)

(** [f"{n:,d}"] for a count [n]: its decimal digits with a comma before
    every group of three digits counted from the right. [thousands] works
    on the digits read from the right. *)
Fixpoint thousands (digits : list ascii) : list ascii :=
  match digits with
  | a :: b :: c :: rest =>
      match rest with
      | [] => digits
      | _ :: _ => a :: b :: c :: ","%char :: thousands rest
      end
  | _ => digits
  end.

Definition format_thousands (n : nat) : string :=
  string_of_list_ascii
    (reverse (thousands (reverse (list_ascii_of_string (pretty n))))).

(** * Definitions the statements use *)

(** ** The script on values

    What each part of the script computes from the frame its argument
    refers to; the lemmas [*_run] relate the script to these. *)

Definition mask_of (d : DataFrame) (date_range : list Date)
    (country_sel : list Cell) : result (list bool) :=
  let? d0 := index date_range 0 in
  let? d1 := index date_range 1 in
  let? s1 := column d "InvoiceDate" in
  let? ge := series_ge s1 (to_datetime d0) in
  let? s2 := column d "InvoiceDate" in
  let? le := series_le s2 (to_datetime d1) in
  match country_sel with
  | [] => Ok (mask_and ge le)
  | _ :: _ =>
      let? c := column d "Country" in
      Ok (mask_and (mask_and ge le) (isin c country_sel))
  end.

Definition kpis_of (f : DataFrame) : result KPIs :=
  let? revenue := column f "Revenue" in
  let? total_revenue := series_sum revenue in
  let? profit := column f "Profit" in
  let? total_profit := series_sum profit in
  let? invoice_no := column f "InvoiceNo" in
  let total_orders := nunique invoice_no in
  let? avg_order_value :=
    if truthy_int total_orders
    then truediv total_revenue (Qc_of_nat total_orders)
    else Ok 0 in
  let? profit_margin :=
    if truthy_float total_revenue
    then truediv total_profit total_revenue
    else Ok 0 in
  Ok (mkKPIs total_revenue total_profit total_orders
             avg_order_value profit_margin).

Definition monthly_aggs : list NamedAgg :=
  [named "Revenue" "Revenue" agg_sum; named "Profit" "Profit" agg_sum].

Definition monthly_of (f : DataFrame) : result DataFrame :=
  let? m := groupby_month f "InvoiceDate" monthly_aggs in
  let? s := column m "InvoiceDate" in
  let? label := dt_strftime_Ym s in
  set_column m "Month" label.

(** Group, sort by revenue, keep the first [n]: the three frames made. *)
Definition ranked (argsort : list Qc → list nat) (f : DataFrame)
    (by_ : list string) (aggs : list NamedAgg) (n : nat)
  : result (DataFrame * DataFrame * DataFrame) :=
  let? g := groupby_agg f by_ aggs in
  let? s := sort_values_desc argsort g "Revenue" in
  Ok (g, s, head s n).

Definition prod_aggs : list NamedAgg :=
  [named "Revenue" "Revenue" agg_sum; named "Profit" "Profit" agg_sum;
   named "Quantity" "Quantity" agg_sum].

Definition country_aggs : list NamedAgg :=
  [named "Revenue" "Revenue" agg_sum].

Definition cust_aggs : list NamedAgg :=
  [named "Revenue" "Revenue" agg_sum; named "Orders" "InvoiceNo" agg_nunique].

(** The view of the page and the frames the script creates, in order. *)
Definition view_of (argsort : list Qc → list nat) (d : DataFrame)
    (date_range : list Date) (country_sel : list Cell) (top_n : nat)
  : result (View.t * list DataFrame) :=
  let? mask := mask_of d date_range country_sel in
  let f := boolean_index d mask in
  let? k := kpis_of f in
  let? m := monthly_of f in
  let? p := ranked argsort f ["StockCode"; "Description"] prod_aggs top_n in
  let? c := ranked argsort f ["Country"] country_aggs 15 in
  let? u := ranked argsort f ["CustomerID"] cust_aggs top_n in
  Ok (View.mk f (k_total_revenue k) (k_total_profit k) (k_total_orders k)
        (k_avg_order_value k) (k_profit_margin k)
        m p.2 c.2 u.2 (head f 200),
      [f; f; m; p.1.1; p.1.2; p.2; c.1.1; c.1.2; c.2; u.1.1; u.1.2; u.2;
       head f 200]).

(** [load_data] on values. *)
Fixpoint ensure_numeric_of (coerce : Cell → option Qc) (d : DataFrame)
    (cols : list string) : result DataFrame :=
  match cols with
  | [] => Ok d
  | col :: cols =>
      let? d' :=
        if bool_decide (col ∈ columns d) then
          let? s := column d col in
          set_column d col (fillna (Num 0) (to_numeric coerce s))
        else Ok d in
      ensure_numeric_of coerce d' cols
  end.

Definition normalize (coerce : Cell → option Qc) (sheet : DataFrame)
  : result DataFrame :=
  let? d := ensure_numeric_of coerce sheet numeric_columns in
  let? s := column d "InvoiceDate" in
  let? m := dt_month_start s in
  set_column d "Month" m.

(** ** Cells and sums *)

Definition is_date (c : Cell) : Prop :=
  match c with Ts _ | NaN => True | _ => False end.

Global Instance is_date_dec c : Decision (is_date c).
Proof. destruct c; simpl; apply _. Defined.

Definition date_cell (c : Cell) : option Timestamp :=
  match c with Ts t => Some t | _ => None end.

Definition is_num (c : Cell) : Prop :=
  match c with Num _ => True | _ => False end.

Global Instance is_num_dec c : Decision (is_num c).
Proof. destruct c; simpl; apply _. Defined.

(** The number in a cell; a cell without one counts for nothing. *)
Definition number (c : Cell) : Qc :=
  match c with Num q => q | _ => 0 end.

(** The sum of column [c] over the rows [rs]. *)
Definition total (c : string) (rs : list Row) : Qc :=
  foldr (λ r acc, number (r c) + acc) 0 rs.

Definition sum_list (qs : list Qc) : Qc := foldr Qcplus 0 qs.

(** The two ratios as the page defines them. *)
Definition ratio_or_zero (nonzero : Prop) `{!Decision nonzero}
    (a b : Qc) : Qc :=
  if decide nonzero then a / b else 0.

(** ** The rows the filters keep *)

(** The rows the filters keep: the invoice date lies between midnight of
    the first and midnight of the last day of the range, both included,
    and the country is one of the selected ones when any is selected. *)
Definition in_date_range (date_start date_end : Date) (c : Cell) : Prop :=
  ∃ t, c = Ts t ∧ ts_le (to_datetime date_start) t
                ∧ ts_le t (to_datetime date_end).

Definition keeps (date_start date_end : Date) (country_sel : list Cell)
    (r : Row) : Prop :=
  in_date_range date_start date_end (r "InvoiceDate") ∧
  (country_sel = [] ∨ r "Country" ∈ country_sel).

Global Instance in_date_range_dec s e c : Decision (in_date_range s e c).
Proof.
  unfold in_date_range. destruct c as [| | |t].
  1-3: right; by intros (? & [=] & _).
  destruct (decide (ts_le (to_datetime s) t ∧ ts_le t (to_datetime e))).
  - left. eauto.
  - right. intros (? & [= <-] & ?). tauto.
Defined.

Global Instance keeps_dec s e cs r : Decision (keeps s e cs r).
Proof. unfold keeps. apply _. Defined.

(** ** The loaded table *)

(** [pd.to_numeric(errors="coerce")] then [fillna(0)] on one value. *)
Definition coerced (coerce : Cell → option Qc) (c : Cell) : Cell :=
  Num (default 0 (coerce c)).

(** The loop of [load_data] on one row; [present] are the frame's labels. *)
Definition coerce_row (coerce : Cell → option Qc) (present cols : list string)
    (r : Row) : Row :=
  foldl (λ (r : Row) col,
           if bool_decide (col ∈ present)
           then update r col (coerced coerce (r col)) else r) r cols.

(** One row of the loaded table. *)
Definition normalized_row (coerce : Cell → option Qc) (present : list string)
    (r : Row) : Row :=
  let r' := coerce_row coerce present numeric_columns r in
  update r' "Month" (of_dt (month_start <$> date_cell (r' "InvoiceDate"))).

Definition normalized (coerce : Cell → option Qc) (sheet : DataFrame)
  : DataFrame :=
  mkDF (if bool_decide ("Month" ∈ columns sheet) then columns sheet
        else columns sheet ++ ["Month"])
       (normalized_row coerce (columns sheet) <$> rows sheet).

Definition required_columns : list string :=
  ["InvoiceNo"; "StockCode"; "Description"; "Quantity"; "InvoiceDate";
   "CustomerID"; "Country"; "Revenue"; "Profit"].

Definition summed_columns : list string := ["Revenue"; "Profit"; "Quantity"].

(** What [load_data] establishes for a sheet with the required columns,
    and what the script relies on: the columns it reads exist, the columns
    it sums hold numbers, the invoice dates are dates or missing. *)
Definition WellFormed (d : DataFrame) : Prop :=
  Forall (λ c, c ∈ columns d) required_columns ∧
  Forall (λ c, Forall (λ r : Row, is_num (r c)) (rows d)) summed_columns ∧
  Forall (λ r : Row, is_date (r "InvoiceDate")) (rows d).

Global Instance WellFormed_dec d : Decision (WellFormed d).
Proof. unfold WellFormed. apply _. Defined.

(** ** Groups and rankings *)

(** The aggregate [a] of the rows [g] of one group. *)
Definition agg_value (a : NamedAgg) (g : list Row) : Cell :=
  match agg_func a with
  | agg_sum => Num (total (agg_col a) g)
  | agg_nunique => Num (Qc_of_nat (nunique ((λ r : Row, r (agg_col a)) <$> g)))
  end.

(** The row of the group labelled [k] with rows [g]. *)
Definition group_row (by_ : list string) (aggs : list NamedAgg)
    (k : list Cell) (g : list Row) : Row :=
  mkrow (zip by_ k ++ zip (agg_out <$> aggs) ((λ a, agg_value a g) <$> aggs)).

(** The frame [groupby(by).agg(...)] returns when it returns one. *)
Definition grouped (d : DataFrame) (by_ : list string) (aggs : list NamedAgg)
  : DataFrame :=
  mkDF (by_ ++ (agg_out <$> aggs))
       ((λ k, group_row by_ aggs k (members by_ (rows d) k))
          <$> group_keys by_ (rows d)).

(** The sums of [aggs] are over numbers. *)
Definition sums_numbers (aggs : list NamedAgg) (g : list Row) : Prop :=
  ∀ a, a ∈ aggs → agg_func a = agg_sum →
       Forall (λ r : Row, is_num (r (agg_col a))) g.

(** [groups] holds one row for each label of [by_] that occurs in [f]
    without a missing part, and in each the columns [cols] hold the sums
    over the rows of [f] with that label. *)
Definition sums_per_group (f : DataFrame) (by_ cols : list string)
    (groups : list Row) : Prop :=
  NoDup (key_of by_ <$> groups) ∧
  (∀ k, k ∈ key_of by_ <$> groups ↔
        (NaN ∉ k) ∧ (∃ r : Row, r ∈ rows f ∧ key_of by_ r = k)) ∧
  (∀ (g : Row) c, g ∈ groups → c ∈ cols →
     g c = Num (total c (members by_ (rows f) (key_of by_ g)))).

(** Never increasing revenue from one row to the next. *)
Definition by_revenue_desc : relation Row :=
  λ a b, number (b "Revenue") ≤ number (a "Revenue").

(** The ranking a table of the page shows: the groups of [f], in an order
    [sort_values] returned for them, cut after [n] rows. *)
Definition ranking (argsort : list Qc → list nat) (f : DataFrame)
    (by_ : list string) (aggs : list NamedAgg) (n : nat) (t : DataFrame)
  : Prop :=
  ∃ s, sort_values_desc argsort (grouped f by_ aggs) "Revenue" = Ok s ∧
       t = head s n.

(** ** Monthly buckets *)

(** The rows of month [b]. *)
Definition month_rows (key : string) (rs : list Row) (b : Z) : list Row :=
  filter (λ r : Row, cell_month (r key) = Some b) rs.

(** The months the trend has a bucket for. *)
Definition months (key : string) (rs : list Row) : list Z :=
  month_bins (omap cell_month ((λ r : Row, r key) <$> rs)).

(** One row of the trend: month end, sums, label. *)
Definition monthly_row (rs : list Row) (b : Z) : Row :=
  update (group_row ["InvoiceDate"] monthly_aggs [Ts (month_end b)]
            (month_rows "InvoiceDate" rs b))
         "Month" (Str (strftime_Ym (month_end b))).

Definition monthly_frame (f : DataFrame) : DataFrame :=
  mkDF ["InvoiceDate"; "Revenue"; "Profit"; "Month"]
       (monthly_row (rows f) <$> months "InvoiceDate" (rows f)).

(** ** What the page shows *)

(** How the view [v] relates to the table [d] the script was run on. *)
Record Shows (argsort : list Qc → list nat) (d : DataFrame)
    (date_start date_end : Date) (country_sel : list Cell) (top_n : nat)
    (v : View.t) : Prop := {
  shows_columns : columns (View.df_f v) = columns d;
  shows_rows :
    rows (View.df_f v) =
    filter (keeps date_start date_end country_sel) (rows d);
  shows_kpis :
    kpis_of (View.df_f v) =
    Ok (mkKPIs (View.total_revenue v) (View.total_profit v)
          (View.total_orders v) (View.avg_order_value v)
          (View.profit_margin v));
  shows_monthly : View.monthly v = monthly_frame (View.df_f v);
  shows_prod :
    ranking argsort (View.df_f v) ["StockCode"; "Description"] prod_aggs
      top_n (View.prod v);
  shows_country :
    ranking argsort (View.df_f v) ["Country"] country_aggs 15
      (View.country v);
  shows_cust :
    ranking argsort (View.df_f v) ["CustomerID"] cust_aggs top_n
      (View.cust v);
  shows_sample : View.sample v = head (View.df_f v) 200
}.

(** ** The stable order the specification describes

    Defined from the specification's words about the top products (group,
    sum, sort descending by revenue "stable, original group order preserved
    for equal revenue", truncate), to compare the script with: a row is
    inserted behind every row of at least its revenue. *)
Fixpoint insert_stable (x : Row) (l : list Row) : list Row :=
  match l with
  | [] => [x]
  | y :: l' =>
      if bool_decide (number (y "Revenue") < number (x "Revenue"))
      then x :: l
      else y :: insert_stable x l'
  end.

Definition stable_sort_desc (l : list Row) : list Row :=
  foldl (λ acc x, insert_stable x acc) [] l.

Definition spec_top_products (f : DataFrame) (top_n : nat) : list Row :=
  take top_n
    (stable_sort_desc
       (rows (grouped f ["StockCode"; "Description"] prod_aggs))).

(** ** Sorting routines and example tables

    Two sorting routines that keep the promise of [sort_values]: one
    leaves rows of equal revenue in their order, the other reverses them. *)

Definition ascending (vs : list Qc) : relation nat :=
  λ i j, default 0 (vs !! i) ≤ default 0 (vs !! j).

Global Instance ascending_dec vs i j : Decision (ascending vs i j).
Proof. unfold ascending. apply _. Defined.

Definition argsort_mergesort (vs : list Qc) : list nat :=
  merge_sort (descending vs) (seq 0 (length vs)).

Definition argsort_reversed (vs : list Qc) : list nat :=
  reverse (merge_sort (ascending vs) (seq 0 (length vs))).

(** A coercion that keeps numbers and fails on every other value. *)
Definition coerce_numbers (c : Cell) : option Qc :=
  match c with Num q => Some q | _ => None end.

(** A small sheet: two invoices of the same customer in January 2024, one
    guest row without customer, one French row in February; one quantity
    is not a number. *)
Definition qz (n : Z) : Cell := Num (Qc_of_Z n).

Definition sheet_row (invoice stock descr : string) (quantity : Cell)
    (date : Timestamp) (customer : Cell) (country_ : string)
    (revenue profit : Z) : Row :=
  mkrow [("InvoiceNo", Str invoice); ("StockCode", Str stock);
         ("Description", Str descr); ("Quantity", quantity);
         ("InvoiceDate", Ts date); ("UnitPrice", qz 1);
         ("CustomerID", customer); ("Country", Str country_);
         ("Revenue", qz revenue); ("Cost", qz (revenue - profit));
         ("Profit", qz profit)].

Definition example_sheet : DataFrame :=
  mkDF ["InvoiceNo"; "StockCode"; "Description"; "Quantity"; "InvoiceDate";
        "UnitPrice"; "CustomerID"; "Country"; "Revenue"; "Cost"; "Profit"]
       [sheet_row "A" "P1" "mug" (qz 2) (mkTs 2024 1 15 0) (qz 7) "UK" 100 20;
        sheet_row "A" "P2" "cup" (Str "two") (mkTs 2024 1 20 36000) (qz 7)
          "UK" 50 (-5);
        sheet_row "C" "P3" "jar" (qz 1) (mkTs 2024 1 31 0) NaN "UK" 100 10;
        sheet_row "B" "P1" "mug" (qz 4) (mkTs 2024 2 1 0) (qz 8) "FR" 200 40].

Definition example_table : DataFrame := normalized coerce_numbers example_sheet.

(** Two products with the same revenue. *)
Definition tie_table : DataFrame :=
  normalized coerce_numbers
    (mkDF (columns example_sheet)
       [sheet_row "A" "P1" "mug" (qz 1) (mkTs 2024 1 15 0) (qz 7) "UK" 10 2;
        sheet_row "B" "P2" "cup" (qz 1) (mkTs 2024 1 16 0) (qz 8) "UK" 10 3]).

(** The three-row scenario: the five fields it gives, over rows [base]
    whose other columns are arbitrary. *)
Definition scenario_row (base : Row) (country_ : string) (revenue profit : Z)
    (invoice : string) (date : Date) : Row :=
  update (update (update (update (update base
    "Country" (Str country_))
    "Revenue" (Num (Qc_of_Z revenue)))
    "Profit" (Num (Qc_of_Z profit)))
    "InvoiceNo" (Str invoice))
    "InvoiceDate" (Ts (to_datetime date)).

Definition scenario (cols : list string) (b1 b2 b3 : Row) : DataFrame :=
  mkDF cols
    [scenario_row b1 "UK" 100 20 "A" (mkDate 2024 1 15);
     scenario_row b2 "UK" 50 (-5) "A" (mkDate 2024 1 20);
     scenario_row b3 "FR" 200 40 "B" (mkDate 2024 2 1)].

(** ** The sidebar on values *)

Definition sidebar_of (argsort : list Qc → list nat) (d : DataFrame)
  : result Sidebar.t :=
  let? s := column d "InvoiceDate" in
  let? lo := series_min s in
  let? min_date := ts_date lo in
  let? hi := series_max s in
  let? max_date := ts_date hi in
  let? c := column d "Country" in
  Ok (Sidebar.mk min_date max_date (value_counts argsort c).*1
        (take 3 (value_counts argsort c).*1)).

(** The time of day of a timestamp is not negative. *)
Definition valid_time (c : Cell) : Prop :=
  match c with Ts t => (0 ≤ nanos t)%Z | _ => True end.

Global Instance valid_time_dec c : Decision (valid_time c).
Proof. destruct c; simpl; apply _. Defined.

(** Never more occurrences in [s] from one value to the next. *)
Definition by_count_desc (s : Series) : relation Cell :=
  λ a b, (count b s ≤ count a s)%nat.

(** A decimal digit. *)
Definition digit (a : ascii) : Prop :=
  a ∈ list_ascii_of_string "0123456789".

Global Instance digit_dec a : Decision (digit a).
Proof. unfold digit. apply _. Defined.

(** * Running computations *)

Lemma bind_run {A B} (m : M A) (f : A → M B) h :
  bind m f h = match m h with Ok (a, h') => f a h' | Raise e => Raise e end.
Proof. reflexivity. Qed.

Lemma bind_lift {A B} (r : result A) (f : A → M B) h :
  bind (lift r) f h = match r with Ok a => f a h | Raise e => Raise e end.
Proof. unfold bind, lift. by destruct r. Qed.

Lemma bind_ret {A B} (a : A) (f : A → M B) h : bind (ret a) f h = f a h.
Proof. reflexivity. Qed.

Lemma lift_run {A} (r : result A) h :
  lift r h = match r with Ok a => Ok (a, h) | Raise e => Raise e end.
Proof. reflexivity. Qed.

Lemma ret_run {A} (a : A) h : ret a h = Ok (a, h).
Proof. reflexivity. Qed.

Lemma rbind_Ok {A B} (m : result A) (f : A → result B) b :
  rbind m f = Ok b ↔ ∃ a, m = Ok a ∧ f a = Ok b.
Proof.
  destruct m as [a|e]; simpl; split.
  - eauto.
  - by intros (a' & [= <-] & ?).
  - done.
  - by intros (a' & [=] & ?).
Qed.

Lemma heap_lookup_new (h : Heap) d : (h ++ [d]) !! length h = Some d.
Proof. by apply list_lookup_middle. Qed.

Lemma heap_lookup_old (h h' : Heap) r d :
  h !! r = Some d → (h ++ h') !! r = Some d.
Proof. apply lookup_app_l_Some. Qed.

Section Runs.
Context (h : Heap) (r : loc) (d : DataFrame) (Hr : h !! r = Some d).
#[local] Set Default Proof Using "Type*".

Lemma deref_run : deref r h = Ok (d, h).
Proof. unfold deref. by rewrite Hr. Qed.

Lemma getitem_run c :
  getitem r c h =
  match column d c with Ok s => Ok (s, h) | Raise e => Raise e end.
Proof. unfold getitem. by rewrite bind_run, deref_run. Qed.

Lemma setitem_run c s :
  setitem r c s h =
  match set_column d c s with
  | Ok d' => Ok ((), <[r:=d']> h)
  | Raise e => Raise e
  end.
Proof.
  unfold setitem. rewrite bind_run, deref_run, bind_lift.
  destruct (set_column d c s); [|done]. unfold assign. by rewrite Hr.
Qed.

Lemma getitem_mask_run mask :
  getitem_mask r mask h = Ok (length h, h ++ [boolean_index d mask]).
Proof. unfold getitem_mask. by rewrite bind_run, deref_run. Qed.

Lemma copy_run : copy r h = Ok (length h, h ++ [d]).
Proof. unfold copy. by rewrite bind_run, deref_run. Qed.

Lemma df_head_run n : df_head r n h = Ok (length h, h ++ [head d n]).
Proof. unfold df_head. by rewrite bind_run, deref_run. Qed.

Lemma groupby_run by_ aggs :
  groupby r by_ aggs h =
  match groupby_agg d by_ aggs with
  | Ok g => Ok (length h, h ++ [g])
  | Raise e => Raise e
  end.
Proof.
  unfold groupby. rewrite bind_run, deref_run, bind_lift.
  by destruct (groupby_agg d by_ aggs).
Qed.

Lemma groupby_grouper_M_run key aggs :
  groupby_grouper_M r key aggs h =
  match groupby_month d key aggs with
  | Ok g => Ok (length h, h ++ [g])
  | Raise e => Raise e
  end.
Proof.
  unfold groupby_grouper_M. rewrite bind_run, deref_run, bind_lift.
  by destruct (groupby_month d key aggs).
Qed.

Lemma sort_values_run argsort by_ :
  sort_values argsort r by_ h =
  match sort_values_desc argsort d by_ with
  | Ok g => Ok (length h, h ++ [g])
  | Raise e => Raise e
  end.
Proof.
  unfold sort_values. rewrite bind_run, deref_run, bind_lift.
  by destruct (sort_values_desc argsort d by_).
Qed.
End Runs.

Ltac heap_index i :=
  first [ replace i with 0%nat by lia | replace i with 1%nat by lia
        | replace i with 2%nat by lia | replace i with 3%nat by lia
        | replace i with 4%nat by lia | replace i with 5%nat by lia
        | replace i with 6%nat by lia | replace i with 7%nat by lia
        | replace i with 8%nat by lia | replace i with 9%nat by lia
        | replace i with 10%nat by lia | replace i with 11%nat by lia
        | replace i with 12%nat by lia | replace i with 13%nat by lia ].

Ltac heap_lookup :=
  solve [ eassumption
        | apply heap_lookup_new
        | rewrite <- ?app_assoc; cbn [app];
          rewrite lookup_app_r by (rewrite ?length_app; cbn [length]; lia);
          rewrite ?length_app; cbn [length];
          match goal with |- ?l !! ?i = _ => heap_index i end;
          reflexivity ].

(** Symbolic execution: the operation the left-hand side is waiting for
    is rewritten with its [*_run] lemma, or analysed by cases. *)
Ltac scrutinee t :=
  lazymatch t with
  | match ?x with Ok _ => _ | Raise _ => _ end => scrutinee x
  | rbind ?x _ => scrutinee x
  | _ => t
  end.

Ltac run_pure x :=
  lazymatch type of x with
  | result (_ * Heap) => fail
  | _ => idtac
  end;
  lazymatch x with
  | Ok _ => fail
  | Raise _ => fail
  | _ => first [ match goal with E : x = _ |- _ => rewrite !E end
               | destruct x eqn:? ]
  end; cbn [rbind]; try done.

Ltac run_op :=
  first [ erewrite getitem_run by heap_lookup
        | erewrite setitem_run by heap_lookup
        | erewrite getitem_mask_run by heap_lookup
        | erewrite copy_run by heap_lookup
        | erewrite df_head_run by heap_lookup
        | erewrite groupby_run by heap_lookup
        | erewrite groupby_grouper_M_run by heap_lookup
        | erewrite sort_values_run by heap_lookup
        | erewrite deref_run by heap_lookup ].

Ltac run_step :=
  first
    [ rewrite bind_ret
    | rewrite bind_lift
    | progress rewrite !bind_run
    | rewrite lift_run
    | rewrite ret_run; cbn beta iota
    | run_op
    | match goal with
      | |- ?lhs = _ => let x := scrutinee lhs in run_pure x
      end ].

Ltac heap_eq :=
  rewrite ?length_app, <- ?app_assoc; simpl;
  repeat first [ reflexivity | f_equal; try lia ].

Section Blocks.
Context (argsort : list Qc → list nat).
Context (h : Heap) (r : loc) (d : DataFrame) (Hr : h !! r = Some d).
#[local] Set Default Proof Using "Type*".

Lemma apply_filters_run date_range country_sel :
  apply_filters r date_range country_sel h =
  match mask_of d date_range country_sel with
  | Ok mask => Ok (S (length h),
                   h ++ [boolean_index d mask; boolean_index d mask])
  | Raise e => Raise e
  end.
Proof.
  unfold apply_filters, mask_of.
  repeat run_step.
  destruct country_sel as [|c0 cs]; repeat run_step; heap_eq.
Qed.

Lemma kpis_run :
  kpis r h = match kpis_of d with Ok k => Ok (k, h) | Raise e => Raise e end.
Proof.
  unfold kpis, kpis_of. repeat run_step.
  destruct (truthy_int _); repeat run_step;
    destruct (truthy_float _); repeat run_step; done.
Qed.

Lemma monthly_trend_run :
  monthly_trend r h =
  match monthly_of d with
  | Ok m => Ok (length h, h ++ [m])
  | Raise e => Raise e
  end.
Proof.
  unfold monthly_trend, monthly_of, monthly_aggs. repeat run_step.
  rewrite insert_app_r_alt, Nat.sub_diag by lia. done.
Qed.

Lemma ranked_run by_ aggs n :
  (let* g := groupby r by_ aggs in
   let* s := sort_values argsort g "Revenue" in
   df_head s n) h =
  match ranked argsort d by_ aggs n with
  | Ok (g, s, t) => Ok ((length h + 2)%nat, h ++ [g; s; t])
  | Raise e => Raise e
  end.
Proof. unfold ranked. repeat run_step. heap_eq. Qed.

Lemma top_products_run top_n :
  top_products argsort r top_n h =
  match ranked argsort d ["StockCode"; "Description"] prod_aggs top_n with
  | Ok (g, s, t) => Ok ((length h + 2)%nat, h ++ [g; s; t])
  | Raise e => Raise e
  end.
Proof. apply ranked_run. Qed.

Lemma revenue_by_country_run :
  revenue_by_country argsort r h =
  match ranked argsort d ["Country"] country_aggs 15 with
  | Ok (g, s, t) => Ok ((length h + 2)%nat, h ++ [g; s; t])
  | Raise e => Raise e
  end.
Proof. apply ranked_run. Qed.

Lemma top_customers_run top_n :
  top_customers argsort r top_n h =
  match ranked argsort d ["CustomerID"] cust_aggs top_n with
  | Ok (g, s, t) => Ok ((length h + 2)%nat, h ++ [g; s; t])
  | Raise e => Raise e
  end.
Proof. apply ranked_run. Qed.
End Blocks.

Lemma dashboard_run argsort h df d date_range country_sel top_n :
  h !! df = Some d →
  dashboard argsort df date_range country_sel top_n h =
  match view_of argsort d date_range country_sel top_n with
  | Ok (v, news) => Ok (v, h ++ news)
  | Raise e => Raise e
  end.
Proof.
  intros Hdf. unfold dashboard, view_of.
  rewrite bind_run, (apply_filters_run _ _ _ Hdf).
  destruct (mask_of d date_range country_sel) as [mask|]; [|done].
  cbn [rbind]. set (f := boolean_index d mask).
  rewrite bind_run. erewrite kpis_run by heap_lookup.
  destruct (kpis_of f) as [k|]; [|done]. cbn [rbind].
  rewrite bind_run. erewrite monthly_trend_run by heap_lookup.
  destruct (monthly_of f) as [m|]; [|done]. cbn [rbind].
  rewrite bind_run. erewrite top_products_run by heap_lookup.
  destruct (ranked argsort f _ prod_aggs top_n) as [[[g1 s1] t1]|]; [|done].
  cbn [rbind]. rewrite bind_run. erewrite revenue_by_country_run by heap_lookup.
  destruct (ranked argsort f _ country_aggs 15) as [[[g2 s2] t2]|]; [|done].
  cbn [rbind]. rewrite bind_run. erewrite top_customers_run by heap_lookup.
  destruct (ranked argsort f _ cust_aggs top_n) as [[[g3 s3] t3]|]; [|done].
  cbn [rbind]. repeat run_step. cbn [fst snd]. heap_eq.
Qed.

Lemma ensure_numeric_run coerce cols : ∀ h df d,
  h !! df = Some d →
  ensure_numeric coerce df cols h =
  match ensure_numeric_of coerce d cols with
  | Ok d' => Ok ((), <[df:=d']> h)
  | Raise e => Raise e
  end.
Proof.
  induction cols as [|col cols IH]; intros h df d Hdf; simpl.
  - by rewrite list_insert_id.
  - rewrite bind_run, (deref_run _ _ _ Hdf), bind_run.
    case_bool_decide.
    + rewrite bind_run, (getitem_run _ _ _ Hdf).
      destruct (column d col) as [s|]; [|done]. cbn [rbind].
      rewrite (setitem_run _ _ _ Hdf).
      destruct (set_column d col _) as [d'|]; [|done]. cbn [rbind].
      erewrite IH
        by (apply list_lookup_insert_eq; eapply lookup_lt_Some; eauto).
      destruct (ensure_numeric_of coerce d' cols); [|done].
      by rewrite list_insert_insert_eq.
    + rewrite ret_run. cbn [rbind]. by apply IH.
Qed.

Lemma load_data_run coerce sheet h :
  load_data coerce sheet h =
  match normalize coerce sheet with
  | Ok d => Ok (length h, h ++ [d])
  | Raise e => Raise e
  end.
Proof.
  unfold load_data, normalize.
  rewrite bind_run. cbn [new].
  rewrite bind_run, (ensure_numeric_run _ _ _ _ sheet (heap_lookup_new _ _)).
  destruct (ensure_numeric_of coerce sheet numeric_columns) as [d|]; [|done].
  cbn [rbind]. rewrite insert_app_r_alt, Nat.sub_diag by lia. cbn [insert list_insert].
  repeat run_step. rewrite insert_app_r_alt, Nat.sub_diag by lia. done.
Qed.

(** * Properties of the operations *)

(** ** [traverse] *)

Lemma traverse_Ok {A B} (f : A → result B) l l' :
  traverse f l = Ok l' ↔ Forall2 (λ x y, f x = Ok y) l l'.
Proof.
  revert l'. induction l as [|x l IH]; intros l'; simpl.
  - split; [intros [= <-]; constructor | by inversion 1].
  - rewrite rbind_Ok. split.
    + intros (y & Hy & Hl). apply rbind_Ok in Hl as (ys & Hys & [= <-]).
      constructor; [done|]. by apply IH.
    + inversion 1 as [|? y ? ys Hy Hys]; subst. exists y. split; [done|].
      apply rbind_Ok. exists ys. split; [by apply IH | done].
Qed.

Lemma traverse_length {A B} (f : A → result B) l l' :
  traverse f l = Ok l' → length l' = length l.
Proof. rewrite traverse_Ok. intros H. symmetry. by eapply Forall2_length. Qed.

Lemma traverse_fmap {A B} (f : A → result B) (g : A → B) l :
  Forall (λ x, f x = Ok (g x)) l → traverse f l = Ok (g <$> l).
Proof.
  intros H. apply traverse_Ok, Forall2_fmap_r, Forall_Forall2_diag.
  by eapply Forall_impl.
Qed.

Lemma traverse_total {A B} (f : A → result B) l :
  Forall (λ x, ∃ y, f x = Ok y) l → ∃ l', traverse f l = Ok l'.
Proof.
  induction 1 as [|x l [y Hy] _ [l' IH]]; simpl; [by eexists|].
  rewrite Hy, IH. simpl. by eexists.
Qed.

(** ** Columns *)

Lemma column_Ok d c s :
  column d c = Ok s ↔ c ∈ columns d ∧ s = (λ r : Row, r c) <$> rows d.
Proof.
  unfold column. case_bool_decide; split.
  - by intros [= <-].
  - by intros [_ ->].
  - done.
  - by intros [? _].
Qed.

Lemma Forall_column (P : Cell → Prop) c (rs : list Row) :
  Forall P ((λ r : Row, r c) <$> rs) ↔ Forall (λ r : Row, P (r c)) rs.
Proof. apply Forall_fmap. Qed.

Lemma column_in d c :
  c ∈ columns d → column d c = Ok ((λ r : Row, r c) <$> rows d).
Proof. intros. by apply column_Ok. Qed.

Lemma update_eq (r : Row) c v : update r c v c = v.
Proof. unfold update. by rewrite String.eqb_refl. Qed.

Lemma update_ne (r : Row) c c' v : c' ≠ c → update r c v c' = r c'.
Proof.
  intros Hne. unfold update. destruct (String.eqb_spec c' c); [done|done].
Qed.

(** [df[c] = g(df[c'])] row by row. *)
Lemma set_column_fmap d c c' (g : Cell → Cell) :
  set_column d c (g <$> ((λ r : Row, r c') <$> rows d)) =
  Ok (mkDF (if bool_decide (c ∈ columns d) then columns d
            else columns d ++ [c])
           ((λ r : Row, update r c (g (r c'))) <$> rows d)).
Proof.
  unfold set_column. rewrite !length_fmap, bool_decide_eq_true_2 by done.
  by rewrite !zip_with_fmap_r, zip_with_diag.
Qed.

(** ** Dates *)

Lemma dt_Ok s : Forall is_date s ↔ ∃ ts, dt s = Ok ts.
Proof.
  unfold dt. split.
  - intros H. apply traverse_total. eapply Forall_impl; [done|].
    intros [| | |] Hc; simpl; try done; by eexists.
  - intros [ts Hts]. apply traverse_Ok in Hts.
    induction Hts as [|c o s ts Hc _ IH]; constructor; [|done].
    by destruct c.
Qed.

Lemma dt_spec s ts : dt s = Ok ts → ts = date_cell <$> s.
Proof.
  unfold dt. rewrite traverse_Ok. induction 1 as [|c o s ts Hc _ IH]; [done|].
  simpl. f_equal; [|done]. by destruct c; simplify_eq/=.
Qed.

Lemma cmp_ts_spec p s :
  Forall is_date s →
  traverse (cmp_ts p) s =
  Ok ((λ c, match c with Ts x => p x | _ => false end) <$> s).
Proof.
  intros H. apply traverse_fmap. eapply Forall_impl; [done|].
  by intros [| | |].
Qed.

Lemma cmp_ts_Ok p s bs : traverse (cmp_ts p) s = Ok bs → Forall is_date s.
Proof.
  rewrite traverse_Ok. induction 1 as [|c b s bs Hc _ IH]; constructor; [|done].
  by destruct c.
Qed.

Lemma ts_le_refl t : ts_le t t.
Proof.
  unfold ts_le, ts_leb, ts_compare. by rewrite !Z.compare_refl.
Qed.

(** ** Masks *)

Lemma mask_and_fmap {A} (p q : A → bool) l :
  mask_and (p <$> l) (q <$> l) = (λ x, p x && q x) <$> l.
Proof.
  unfold mask_and. by rewrite zip_with_fmap_l, zip_with_fmap_r, zip_with_diag.
Qed.

Lemma select_fmap {A} (p : A → bool) (l : list A) :
  select l (p <$> l) = filter (λ x, p x = true) l.
Proof.
  induction l as [|x l IH]; [done|]. rewrite fmap_cons. cbn [select].
  rewrite IH. destruct (p x) eqn:Hp.
  - by rewrite filter_cons_True.
  - rewrite filter_cons_False; [done|]. by rewrite Hp.
Qed.

Lemma mask_of_spec d date_start date_end country_sel mask :
  mask_of d [date_start; date_end] country_sel = Ok mask →
  select (rows d) mask = filter (keeps date_start date_end country_sel) (rows d).
Proof.
  unfold mask_of. cbn [index lookup list_lookup rbind].
  intros H. apply rbind_Ok in H as (s & Hs & H).
  apply column_Ok in Hs as [_ ->].
  apply rbind_Ok in H as (ge & Hge & H).
  apply rbind_Ok in H as (s2 & Hs2 & H). apply column_Ok in Hs2 as [_ ->].
  apply rbind_Ok in H as (le & Hle & H).
  pose proof (cmp_ts_Ok _ _ _ Hge) as Hd.
  unfold series_ge in Hge. unfold series_le in Hle.
  rewrite cmp_ts_spec in Hge, Hle by done.
  injection Hge as <-. injection Hle as <-.
  rewrite <- !list_fmap_compose, mask_and_fmap in H.
  assert (∀ r : Row,
    in_date_range date_start date_end (r "InvoiceDate") ↔
    (match r "InvoiceDate" with Ts x => ts_leb (to_datetime date_start) x
                              | _ => false end &&
     match r "InvoiceDate" with Ts x => ts_leb x (to_datetime date_end)
                              | _ => false end) = true) as Hrange.
  { intros r. unfold in_date_range, ts_le. destruct (r "InvoiceDate").
    1-3: split; [by intros (? & [=] & _) | done].
    rewrite andb_true_iff. split; [by intros (? & [= <-] & ?) | eauto]. }
  destruct country_sel as [|c0 cs].
  - injection H as <-. rewrite select_fmap. apply list_filter_iff.
    intros r. unfold keeps. rewrite Hrange. simpl.
    split; [by split; [|left]|by intros [? _]].
  - apply rbind_Ok in H as (c & Hc & [= <-]). apply column_Ok in Hc as [_ ->].
    unfold isin. rewrite <- !list_fmap_compose, mask_and_fmap, select_fmap.
    apply list_filter_iff. intros r. unfold keeps. rewrite Hrange. simpl.
    rewrite andb_true_iff, bool_decide_eq_true.
    split; [intros [? ?]; by split; [|right]|].
    by intros [? [[=]|?]].
Qed.

(** ** Sums and counts *)

Lemma series_sum_total c rs t :
  series_sum ((λ r : Row, r c) <$> rs) = Ok t → t = total c rs.
Proof.
  revert t. induction rs as [|r rs IH]; intros t; simpl.
  - by intros [= <-].
  - destruct (r c) eqn:Hc; simpl; try done.
    + intros H. rewrite (IH _ H). by rewrite Qcplus_0_l.
    + intros H. apply rbind_Ok in H as (t' & Ht' & [= <-]). by rewrite (IH _ Ht').
Qed.

Lemma series_sum_nums s : Forall is_num s → ∃ t, series_sum s = Ok t.
Proof.
  induction 1 as [|c s Hc _ [t IH]]; simpl; [by eexists|].
  destruct c; try done. rewrite IH. simpl. by eexists.
Qed.

(** [nunique] counts the distinct values that are not missing. *)
Lemma nunique_count s vs :
  NoDup vs → (∀ c, c ∈ vs ↔ c ∈ s ∧ c ≠ NaN) → nunique s = length vs.
Proof.
  intros Hnd Hvs. unfold nunique. apply Permutation_length, NoDup_Permutation.
  - apply NoDup_remove_dups.
  - done.
  - intros c. rewrite elem_of_remove_dups, list_elem_of_filter, Hvs. tauto.
Qed.

Lemma nunique_nil : nunique [] = 0%nat.
Proof. done. Qed.

Lemma Qc_of_nat_0 n : Qc_of_nat n = 0 ↔ n = 0%nat.
Proof.
  unfold Qc_of_nat, Qc_of_Z. split; [|by intros ->].
  intros H. apply Q2Qc_eq_iff in H. unfold Qeq in H. simpl in H. lia.
Qed.

Lemma truthy_int_spec n : truthy_int n = true ↔ (0 < n)%nat.
Proof.
  unfold truthy_int. rewrite negb_true_iff, Nat.eqb_neq. lia.
Qed.

Lemma truthy_float_spec q : truthy_float q = true ↔ q ≠ 0.
Proof.
  unfold truthy_float. by rewrite negb_true_iff, bool_decide_eq_false.
Qed.

Lemma truediv_Ok a b : b ≠ 0 → truediv a b = Ok (a / b).
Proof. intros. unfold truediv. by rewrite bool_decide_eq_false_2. Qed.

Lemma kpis_of_total f :
  "Revenue" ∈ columns f → "Profit" ∈ columns f → "InvoiceNo" ∈ columns f →
  Forall (λ r : Row, is_num (r "Revenue")) (rows f) →
  Forall (λ r : Row, is_num (r "Profit")) (rows f) →
  ∃ k, kpis_of f = Ok k.
Proof.
  intros HR HP HI HnR HnP. unfold kpis_of.
  rewrite !column_in by done. cbn [rbind].
  destruct (series_sum_nums ((λ r : Row, r "Revenue") <$> rows f)) as [tr ->];
    [by apply Forall_column|].
  destruct (series_sum_nums ((λ r : Row, r "Profit") <$> rows f)) as [tp ->];
    [by apply Forall_column|].
  cbn [rbind].
  destruct (truthy_int _) eqn:Hto.
  - rewrite truediv_Ok; cbn [rbind].
    + destruct (truthy_float tr) eqn:Htr; cbn [rbind]; [|by eexists].
      rewrite truediv_Ok by by apply truthy_float_spec. by eexists.
    + rewrite Qc_of_nat_0. apply truthy_int_spec in Hto. lia.
  - cbn [rbind]. destruct (truthy_float tr) eqn:Htr; cbn [rbind]; [|by eexists].
    rewrite truediv_Ok by by apply truthy_float_spec. by eexists.
Qed.

Lemma kpis_of_spec f k :
  kpis_of f = Ok k →
  k_total_revenue k = total "Revenue" (rows f) ∧
  k_total_profit k = total "Profit" (rows f) ∧
  k_total_orders k = nunique ((λ r : Row, r "InvoiceNo") <$> rows f) ∧
  k_avg_order_value k =
    ratio_or_zero (0 < k_total_orders k)%nat
      (k_total_revenue k) (Qc_of_nat (k_total_orders k)) ∧
  k_profit_margin k =
    ratio_or_zero (k_total_revenue k ≠ 0)
      (k_total_profit k) (k_total_revenue k).
Proof.
  unfold kpis_of. intros H.
  apply rbind_Ok in H as (sr & Hsr & H). apply column_Ok in Hsr as [_ ->].
  apply rbind_Ok in H as (tr & Htr & H). apply series_sum_total in Htr as ->.
  apply rbind_Ok in H as (sp & Hsp & H). apply column_Ok in Hsp as [_ ->].
  apply rbind_Ok in H as (tp & Htp & H). apply series_sum_total in Htp as ->.
  apply rbind_Ok in H as (si & Hsi & H). apply column_Ok in Hsi as [_ ->].
  apply rbind_Ok in H as (avg & Havg & H).
  apply rbind_Ok in H as (pm & Hpm & [= <-]). cbn.
  repeat split; unfold ratio_or_zero.
  - destruct (truthy_int _) eqn:Hto.
    + apply truthy_int_spec in Hto. rewrite decide_True by done.
      unfold truediv in Havg. case_bool_decide; by simplify_eq.
    + rewrite decide_False; [by simplify_eq|].
      rewrite <- truthy_int_spec. by rewrite Hto.
  - destruct (truthy_float _) eqn:Htr.
    + apply truthy_float_spec in Htr. rewrite decide_True by done.
      unfold truediv in Hpm. case_bool_decide; by simplify_eq.
    + rewrite decide_False; [by simplify_eq|].
      rewrite <- truthy_float_spec. by rewrite Htr.
Qed.

(** ** The loader *)

Lemma fillna_to_numeric coerce s :
  fillna (Num 0) (to_numeric coerce s) = coerced coerce <$> s.
Proof.
  unfold fillna, to_numeric. rewrite <- list_fmap_compose.
  apply list_fmap_ext. intros _ c _. unfold coerced. simpl.
  by destruct (coerce c).
Qed.

Lemma ensure_numeric_of_spec coerce cols : ∀ d,
  ensure_numeric_of coerce d cols =
  Ok (mkDF (columns d) (coerce_row coerce (columns d) cols <$> rows d)).
Proof.
  induction cols as [|col cols IH]; intros d; simpl.
  - unfold coerce_row. simpl. rewrite list_fmap_id. by destruct d.
  - case_bool_decide as Hcol.
    + rewrite column_in by done. cbn [rbind].
      rewrite fillna_to_numeric, set_column_fmap.
      rewrite bool_decide_eq_true_2 by done. cbn [rbind].
      rewrite IH. cbn [columns rows]. rewrite <- list_fmap_compose.
      do 2 f_equal. apply list_fmap_ext. intros _ r _.
      unfold coerce_row. simpl. by rewrite bool_decide_eq_true_2.
    + cbn [rbind]. rewrite IH. do 2 f_equal. apply list_fmap_ext.
      intros _ r _. unfold coerce_row. simpl. by rewrite bool_decide_eq_false_2.
Qed.

Lemma coerce_row_lookup coerce present cols : ∀ r c,
  NoDup cols →
  coerce_row coerce present cols r c =
  if bool_decide (c ∈ cols ∧ c ∈ present) then coerced coerce (r c) else r c.
Proof.
  unfold coerce_row.
  induction cols as [|col cols IH]; intros r c Hnd; simpl.
  - done.
  - apply NoDup_cons in Hnd as [Hcol Hnd]. rewrite IH by done.
    destruct (decide (c = col)) as [->|Hne].
    + rewrite (bool_decide_eq_false_2 (col ∈ cols ∧ _)) by tauto.
      case_bool_decide as Hp.
      * rewrite update_eq, bool_decide_eq_true_2; [done|].
        split; [left|done].
      * rewrite bool_decide_eq_false_2; [done|tauto].
    + assert ((if bool_decide (col ∈ present)
               then update r col (coerced coerce (r col)) else r) c = r c)
        as ->.
      { case_bool_decide; [by rewrite update_ne|done]. }
      rewrite (bool_decide_ext (c ∈ col :: cols ∧ c ∈ present)
                 (c ∈ cols ∧ c ∈ present)); [done|].
      rewrite elem_of_cons. tauto.
Qed.

Lemma numeric_columns_NoDup : NoDup numeric_columns.
Proof. apply (bool_decide_unpack _). by vm_compute. Qed.

Lemma dt_month_start_dates s :
  Forall is_date s →
  dt_month_start s = Ok ((λ c, of_dt (month_start <$> date_cell c)) <$> s).
Proof.
  intros Hd. unfold dt_month_start.
  destruct (proj1 (dt_Ok s) Hd) as [ts Hts]. rewrite Hts. cbn [rbind].
  apply dt_spec in Hts as ->. by rewrite <- list_fmap_compose.
Qed.

Lemma dt_month_start_Ok s m : dt_month_start s = Ok m → Forall is_date s.
Proof.
  unfold dt_month_start. intros H. apply rbind_Ok in H as (ts & Hts & _).
  apply dt_Ok. by exists ts.
Qed.

Lemma coerce_row_date coerce present (r : Row) :
  coerce_row coerce present numeric_columns r "InvoiceDate" = r "InvoiceDate".
Proof.
  rewrite coerce_row_lookup by apply numeric_columns_NoDup.
  rewrite bool_decide_eq_false_2; [done|]. intros [H _]. revert H.
  apply (bool_decide_unpack _). by vm_compute.
Qed.

Lemma normalize_Ok coerce sheet d :
  normalize coerce sheet = Ok d ↔
  "InvoiceDate" ∈ columns sheet ∧
  Forall (λ r : Row, is_date (r "InvoiceDate")) (rows sheet) ∧
  d = normalized coerce sheet.
Proof.
  unfold normalize. rewrite ensure_numeric_of_spec. cbn [rbind].
  set (d1 := mkDF _ _).
  assert ((λ r : Row, r "InvoiceDate") <$> rows d1 =
          (λ r : Row, r "InvoiceDate") <$> rows sheet) as Hcol.
  { unfold d1. cbn [rows]. rewrite <- list_fmap_compose.
    apply list_fmap_ext. intros _ r _. simpl. apply coerce_row_date. }
  assert (∀ s, Forall is_date s →
            s = (λ r : Row, r "InvoiceDate") <$> rows sheet →
            (let? m := dt_month_start s in set_column d1 "Month" m) =
            Ok (normalized coerce sheet)) as Hrun.
  { intros s Hd ->. rewrite dt_month_start_dates by done. cbn [rbind].
    rewrite <- Hcol, set_column_fmap. unfold normalized, d1. cbn [rows columns].
    by rewrite <- list_fmap_compose. }
  split.
  - intros H. apply rbind_Ok in H as (s & Hs & H).
    apply column_Ok in Hs as [Hin ->]. rewrite Hcol in H.
    assert (Forall is_date ((λ r : Row, r "InvoiceDate") <$> rows sheet)) as Hd.
    { apply rbind_Ok in H as (m & Hm & _). by eapply dt_month_start_Ok. }
    rewrite (Hrun _ Hd eq_refl) in H. injection H as <-.
    split; [exact Hin|]. split; [|done]. by apply Forall_column.
  - intros (Hin & Hd & ->). rewrite column_in by exact Hin. cbn [rbind].
    rewrite Hcol. apply Hrun; [|done]. by apply Forall_column.
Qed.

Lemma normalized_row_numeric coerce present (r : Row) c :
  c ∈ numeric_columns → c ∈ present →
  normalized_row coerce present r c = coerced coerce (r c).
Proof.
  intros Hc Hp. unfold normalized_row.
  rewrite update_ne.
  - rewrite coerce_row_lookup by apply numeric_columns_NoDup.
    by rewrite bool_decide_eq_true_2.
  - intros ->. revert Hc. apply (bool_decide_unpack _). by vm_compute.
Qed.

Lemma normalized_row_date coerce present (r : Row) :
  normalized_row coerce present r "InvoiceDate" = r "InvoiceDate".
Proof.
  unfold normalized_row. rewrite update_ne by done. apply coerce_row_date.
Qed.

Lemma normalized_row_other coerce present (r : Row) c :
  c ∉ numeric_columns → c ≠ "Month" →
  normalized_row coerce present r c = r c.
Proof.
  intros Hc Hm. unfold normalized_row. rewrite update_ne by done.
  rewrite coerce_row_lookup by apply numeric_columns_NoDup.
  rewrite bool_decide_eq_false_2; [done|tauto].
Qed.

(** ** Tables the script can work on *)

Lemma WellFormed_iff d :
  WellFormed d ↔
  (∀ c, c ∈ required_columns → c ∈ columns d) ∧
  (∀ c, c ∈ summed_columns → Forall (λ r : Row, is_num (r c)) (rows d)) ∧
  Forall (λ r : Row, is_date (r "InvoiceDate")) (rows d).
Proof. unfold WellFormed. by rewrite !Forall_forall. Qed.

Lemma normalized_WellFormed coerce sheet :
  required_columns ⊆ columns sheet →
  Forall (λ r : Row, is_date (r "InvoiceDate")) (rows sheet) →
  WellFormed (normalized coerce sheet).
Proof.
  intros Hreq Hd. apply WellFormed_iff. split; [|split].
  - intros c Hc. unfold normalized. cbn [columns].
    case_bool_decide; [by apply Hreq|]. apply elem_of_app. left. by apply Hreq.
  - intros c Hc. unfold normalized. cbn [rows]. apply Forall_fmap.
    apply Forall_forall. intros r _. simpl.
    rewrite normalized_row_numeric; [done| |].
    + revert Hc. unfold summed_columns, numeric_columns.
      rewrite !elem_of_cons, !elem_of_nil. tauto.
    + apply Hreq. revert Hc. unfold summed_columns, required_columns.
      rewrite !elem_of_cons, !elem_of_nil. tauto.
  - unfold normalized. cbn [rows]. apply Forall_fmap.
    eapply Forall_impl; [exact Hd|]. intros r Hr. simpl.
    by rewrite normalized_row_date.
Qed.

Lemma Forall_select {A} (P : A → Prop) l mask :
  Forall P l → Forall P (select l mask).
Proof.
  intros H. revert mask. induction H as [|x l Hx _ IH]; intros [|[] mask];
    simpl; auto.
Qed.

Lemma WellFormed_boolean_index d mask :
  WellFormed d → WellFormed (boolean_index d mask).
Proof.
  intros (Hc & Hn & Hd)%WellFormed_iff. apply WellFormed_iff.
  split; [|split]; cbn [boolean_index columns rows].
  - done.
  - intros c Hin. by apply Forall_select, Hn.
  - by apply Forall_select.
Qed.

Lemma Forall_filter_sub {A} (P Q : A → Prop) `{!∀ x, Decision (Q x)} l :
  Forall P l → Forall P (filter Q l).
Proof.
  intros HP. apply Forall_forall. intros x Hx.
  apply list_elem_of_filter in Hx as [_ Hx]. by eapply Forall_forall in HP.
Qed.

Lemma mask_of_total d date_start date_end country_sel :
  WellFormed d →
  ∃ mask, mask_of d [date_start; date_end] country_sel = Ok mask.
Proof.
  intros (Hc & _ & Hd)%WellFormed_iff. unfold mask_of. cbn [index lookup list_lookup rbind].
  rewrite !column_in by (apply Hc; apply (bool_decide_unpack _); by vm_compute).
  cbn [rbind]. unfold series_ge, series_le.
  rewrite !cmp_ts_spec by by apply Forall_column. cbn [rbind].
  destruct country_sel; cbn [rbind]; by eexists.
Qed.

(** ** Grouping *)

Lemma aggregate_Ok a g v :
  aggregate (agg_func a) ((λ r : Row, r (agg_col a)) <$> g) = Ok v →
  v = agg_value a g.
Proof.
  unfold aggregate, agg_value. destruct (agg_func a).
  - intros H. apply rbind_Ok in H as (t & Ht & [= <-]).
    by apply series_sum_total in Ht as ->.
  - by intros [= <-].
Qed.

Lemma aggregate_total a g :
  (agg_func a = agg_sum → Forall (λ r : Row, is_num (r (agg_col a))) g) →
  aggregate (agg_func a) ((λ r : Row, r (agg_col a)) <$> g) =
  Ok (agg_value a g).
Proof.
  intros Hn. unfold aggregate, agg_value. destruct (agg_func a); [|done].
  destruct (series_sum_nums ((λ r : Row, r (agg_col a)) <$> g)) as [t Ht].
  { apply Forall_column. by apply Hn. }
  rewrite Ht. cbn [rbind]. by apply series_sum_total in Ht as ->.
Qed.

Lemma agg_row_Ok by_ aggs k g row :
  agg_row by_ aggs k g = Ok row → row = group_row by_ aggs k g.
Proof.
  unfold agg_row, group_row. intros H.
  apply rbind_Ok in H as (vals & Hv & [= <-]).
  assert (vals = (λ a, agg_value a g) <$> aggs) as ->; [|done].
  apply traverse_Ok in Hv. clear k.
  induction Hv as [|a v aggs vals Ha _ IH]; [done|].
  rewrite fmap_cons. f_equal; [|done]. by apply aggregate_Ok.
Qed.

Lemma agg_row_total by_ aggs k g :
  sums_numbers aggs g → agg_row by_ aggs k g = Ok (group_row by_ aggs k g).
Proof.
  intros Hn. unfold agg_row, group_row.
  rewrite (traverse_fmap _ (λ a, agg_value a g)); [done|].
  apply Forall_forall. intros a Ha. apply aggregate_total. by apply Hn.
Qed.

Lemma check_columns_Ok d cs :
  check_columns d cs = Ok () ↔ ∀ c, c ∈ cs → c ∈ columns d.
Proof.
  induction cs as [|c cs IH]; simpl.
  - split; [|done]. intros _ c Hc. by apply elem_of_nil in Hc.
  - case_bool_decide as Hc.
    + rewrite IH. split.
      * intros H c' [->|Hc']%elem_of_cons; auto.
      * intros H c' Hc'. apply H. by right.
    + split; [done|]. intros H. destruct Hc. apply H. by left.
Qed.

Lemma check_columns_unit d cs u : check_columns d cs = Ok u → u = ().
Proof. by destruct u. Qed.

Lemma groupby_agg_Ok d by_ aggs g :
  groupby_agg d by_ aggs = Ok g → g = grouped d by_ aggs.
Proof.
  unfold groupby_agg, grouped. intros H.
  apply rbind_Ok in H as (_ & _ & H).
  case_bool_decide; [|done].
  apply rbind_Ok in H as (rs & Hrs & [= <-]). f_equal.
  apply traverse_Ok in Hrs.
  induction Hrs as [|k row ks rs Hk _ IH]; [done|].
  rewrite fmap_cons. f_equal; [|done]. by apply agg_row_Ok in Hk.
Qed.

Lemma groupby_agg_total d by_ aggs :
  (∀ c, c ∈ by_ ++ (agg_col <$> aggs) → c ∈ columns d) →
  NoDup (by_ ++ (agg_out <$> aggs)) →
  sums_numbers aggs (rows d) →
  groupby_agg d by_ aggs = Ok (grouped d by_ aggs).
Proof.
  intros Hc Hnd Hn. unfold groupby_agg, grouped.
  apply check_columns_Ok in Hc. rewrite Hc. cbn [rbind].
  rewrite bool_decide_eq_true_2 by done.
  rewrite (traverse_fmap _
             (λ k, group_row by_ aggs k (members by_ (rows d) k))); [done|].
  apply Forall_forall. intros k _. apply agg_row_total.
  intros a Ha Hs. apply Forall_filter_sub. by apply Hn.
Qed.

Lemma elem_of_group_keys by_ rs k :
  k ∈ group_keys by_ rs ↔ (NaN ∉ k) ∧ (∃ r, r ∈ rs ∧ key_of by_ r = k).
Proof.
  unfold group_keys. rewrite merge_sort_Permutation, elem_of_remove_dups.
  rewrite list_elem_of_filter, list_elem_of_fmap. split.
  - intros [Hk (r & -> & Hr)]. eauto.
  - intros [Hk (r & Hr & <-)]. eauto.
Qed.

Lemma NoDup_group_keys by_ rs : NoDup (group_keys by_ rs).
Proof.
  unfold group_keys. rewrite merge_sort_Permutation. apply NoDup_remove_dups.
Qed.

Lemma group_keys_nil by_ : group_keys by_ [] = [].
Proof. done. Qed.

Lemma key_of_length by_ r : length (key_of by_ r) = length by_.
Proof. unfold key_of. by rewrite length_fmap. Qed.

(** *** Rows built from labelled values *)

Lemma mkrow_notin kvs c : c ∉ kvs.*1 → mkrow kvs c = NaN.
Proof.
  induction kvs as [|[c' v] kvs IH]; [done|]. simpl.
  rewrite not_elem_of_cons. intros [Hne Hc]. rewrite update_ne by done. auto.
Qed.

Lemma mkrow_app kvs1 kvs2 c :
  mkrow (kvs1 ++ kvs2) c =
  if bool_decide (c ∈ kvs1.*1) then mkrow kvs1 c else mkrow kvs2 c.
Proof.
  induction kvs1 as [|[c' v] kvs1 IH]; [done|]. simpl.
  destruct (decide (c = c')) as [->|Hne].
  - rewrite !update_eq. rewrite bool_decide_eq_true_2; [done|by left].
  - rewrite !update_ne by done. rewrite IH.
    destruct (decide (c ∈ kvs1.*1)) as [Hin|Hin].
    + rewrite !bool_decide_eq_true_2; [done|by right|done].
    + rewrite !bool_decide_eq_false_2; [done| |done].
      by apply not_elem_of_cons.
Qed.

Lemma mkrow_zip ks vs i c v :
  NoDup ks → ks !! i = Some c → vs !! i = Some v → mkrow (zip ks vs) c = v.
Proof.
  revert vs i. induction ks as [|c' ks IH]; intros [|v' vs] [|i] Hnd Hc Hv;
    simplify_eq/=.
  - apply update_eq.
  - apply NoDup_cons in Hnd as [Hc' Hnd]. rewrite update_ne; [by eapply IH|].
    intros ->. apply Hc'. by eapply list_elem_of_lookup_2.
Qed.

Lemma zip_fst_subseteq {A B} (l : list A) (k : list B) x :
  x ∈ (zip l k).*1 → x ∈ l.
Proof.
  revert k. induction l as [|y l IH]; intros [|z k]; simpl; try by inversion 1.
  rewrite !elem_of_cons. intros [->|Hx]; [by left|right; eauto].
Qed.

Lemma group_row_out by_ aggs k g a i :
  NoDup (by_ ++ (agg_out <$> aggs)) → aggs !! i = Some a →
  group_row by_ aggs k g (agg_out a) = agg_value a g.
Proof.
  intros Hnd Ha. unfold group_row. apply NoDup_app in Hnd as (_ & Hdisj & Hnd).
  rewrite mkrow_app, bool_decide_eq_false_2.
  - apply (mkrow_zip _ _ i); [done|..]; by rewrite list_lookup_fmap, Ha.
  - intros Hin%zip_fst_subseteq. apply (Hdisj _ Hin).
    apply list_elem_of_fmap. exists a. split; [done|].
    by eapply list_elem_of_lookup_2.
Qed.

Lemma group_row_key by_ aggs k g i c v :
  NoDup by_ → by_ !! i = Some c → k !! i = Some v →
  group_row by_ aggs k g c = v.
Proof.
  intros Hnd Hc Hv. unfold group_row. rewrite mkrow_app, bool_decide_eq_true_2.
  - by eapply mkrow_zip.
  - apply list_elem_of_lookup. exists i.
    rewrite list_lookup_fmap, lookup_zip_with, Hc. simpl. by rewrite Hv.
Qed.

(** ** Sorting and truncation *)

Lemma as_number_Ok s vs : traverse as_number s = Ok vs ↔ s = Num <$> vs.
Proof.
  rewrite traverse_Ok. split.
  - induction 1 as [|c q s vs Hc _ IH]; [done|]. rewrite fmap_cons.
    f_equal; [|done]. destruct c; by simplify_eq/=.
  - intros ->. apply Forall2_fmap_l, Forall_Forall2_diag, Forall_forall.
    by intros q _.
Qed.

Lemma nums_fmap s : Forall is_num s → ∃ vs, s = Num <$> vs.
Proof.
  induction 1 as [|c s Hc _ [vs ->]]; [by exists []|].
  destruct c as [|q| |]; try done. by exists (q :: vs).
Qed.

Lemma sort_values_desc_Ok argsort g s :
  sort_values_desc argsort g "Revenue" = Ok s →
  ∃ vs, (λ r : Row, r "Revenue") <$> rows g = Num <$> vs ∧
        s = take_rows g (argsort vs).
Proof.
  unfold sort_values_desc. intros H.
  apply rbind_Ok in H as (c & Hc & H). apply column_Ok in Hc as [_ ->].
  apply rbind_Ok in H as (vs & Hvs & [= <-]). apply as_number_Ok in Hvs.
  by exists vs.
Qed.

Lemma sort_values_desc_total argsort g :
  "Revenue" ∈ columns g →
  Forall (λ r : Row, is_num (r "Revenue")) (rows g) →
  ∃ s, sort_values_desc argsort g "Revenue" = Ok s.
Proof.
  intros Hc Hn. unfold sort_values_desc. rewrite column_in by done.
  cbn [rbind]. apply Forall_column, nums_fmap in Hn as [vs Hvs].
  apply as_number_Ok in Hvs as Hvs'. rewrite Hvs'. cbn [rbind]. by eexists.
Qed.

Lemma omap_lookup_seq {A} (l1 l2 : list A) :
  omap (λ i, (l1 ++ l2) !! i) (seq (length l1) (length l2)) = l2.
Proof.
  revert l1. induction l2 as [|x l2 IH]; intros l1; [done|]. simpl.
  rewrite list_lookup_middle by done. f_equal.
  specialize (IH (l1 ++ [x])). rewrite <- app_assoc, length_app in IH.
  simpl in IH. by rewrite Nat.add_1_r in IH.
Qed.

Lemma omap_lookup_Permutation {A} (l : list A) idx :
  idx ≡ₚ seq 0 (length l) → omap (λ i, l !! i) idx ≡ₚ l.
Proof.
  intros ->. pose proof (omap_lookup_seq [] l) as H. simpl in H. by rewrite H.
Qed.

Lemma revenue_at (l : list Row) vs i r :
  (λ r : Row, r "Revenue") <$> l = Num <$> vs → l !! i = Some r →
  default 0 (vs !! i) = number (r "Revenue").
Proof.
  intros Hcol Hr. apply (f_equal (λ s, s !! i)) in Hcol.
  rewrite !list_lookup_fmap, Hr in Hcol. simpl in Hcol.
  destruct (vs !! i) as [q|]; simplify_eq/=. by destruct (r "Revenue"); simplify_eq.
Qed.

Lemma omap_lookup_Sorted (l : list Row) vs idx :
  (λ r : Row, r "Revenue") <$> l = Num <$> vs →
  Forall (λ i, i < length l)%nat idx →
  Sorted (descending vs) idx →
  Sorted by_revenue_desc (omap (λ i, l !! i) idx).
Proof.
  intros Hcol Hlt Hs. induction Hs as [|x idx Hs IH Hhd]; [constructor|].
  apply Forall_cons in Hlt as [Hx Hlt]. simpl.
  destruct (lookup_lt_is_Some_2 l x Hx) as [r Hr]. rewrite Hr.
  constructor; [by apply IH|].
  destruct Hhd as [|y idx Hxy]; [constructor|].
  apply Forall_cons in Hlt as [Hy _]. simpl.
  destruct (lookup_lt_is_Some_2 l y Hy) as [r' Hr']. rewrite Hr'.
  constructor. unfold by_revenue_desc, descending in *.
  by rewrite <- (revenue_at l vs x r), <- (revenue_at l vs y r').
Qed.

Lemma Sorted_take {A} (R : relation A) l n : Sorted R l → Sorted R (take n l).
Proof.
  intros H. revert n. induction H as [|x l Hs IH Hhd]; intros [|n]; simpl;
    try constructor; [apply IH|].
  destruct Hhd as [|y l Hxy]; destruct n; simpl; by constructor.
Qed.

Section Sorting.
Context (argsort : list Qc → list nat) (Hsort : ArgsortDesc argsort).

Lemma sort_values_desc_Permutation g s :
  sort_values_desc argsort g "Revenue" = Ok s →
  columns s = columns g ∧ rows s ≡ₚ rows g.
Proof using Hsort.
  intros (vs & Hvs & ->)%sort_values_desc_Ok. split; [done|].
  cbn [take_rows rows]. apply omap_lookup_Permutation.
  rewrite (argsort_perm _ Hsort).
  apply (f_equal length) in Hvs. rewrite !length_fmap in Hvs.
  by rewrite Hvs.
Qed.

Lemma sort_values_desc_Sorted g s :
  sort_values_desc argsort g "Revenue" = Ok s →
  Sorted by_revenue_desc (rows s).
Proof using Hsort.
  intros (vs & Hvs & ->)%sort_values_desc_Ok. cbn [take_rows rows].
  apply (omap_lookup_Sorted _ vs); [done| |apply (argsort_sorted _ Hsort)].
  rewrite (argsort_perm _ Hsort). apply Forall_forall. intros i Hi.
  apply elem_of_seq in Hi. apply (f_equal length) in Hvs.
  rewrite !length_fmap in Hvs. lia.
Qed.
End Sorting.

(** What [ranked] returns when it returns. *)
Lemma ranked_Ok argsort f by_ aggs n g s t :
  ranked argsort f by_ aggs n = Ok (g, s, t) →
  g = grouped f by_ aggs ∧
  sort_values_desc argsort g "Revenue" = Ok s ∧
  t = head s n.
Proof.
  unfold ranked. intros H.
  apply rbind_Ok in H as (g' & Hg & H). apply groupby_agg_Ok in Hg as ->.
  apply rbind_Ok in H as (s' & Hs & [= <- <- <-]). done.
Qed.

Lemma ranked_total argsort f by_ aggs n i a :
  (∀ c, c ∈ by_ ++ (agg_col <$> aggs) → c ∈ columns f) →
  NoDup (by_ ++ (agg_out <$> aggs)) →
  sums_numbers aggs (rows f) →
  aggs !! i = Some a → agg_out a = "Revenue" →
  ∃ s, ranked argsort f by_ aggs n = Ok (grouped f by_ aggs, s, head s n).
Proof.
  intros Hc Hnd Hn Ha Hout. unfold ranked.
  rewrite groupby_agg_total by done. cbn [rbind].
  destruct (sort_values_desc_total argsort (grouped f by_ aggs)) as [s Hs].
  - cbn [grouped columns]. apply elem_of_app. right.
    apply list_elem_of_fmap. exists a. split; [done|].
    by eapply list_elem_of_lookup_2.
  - cbn [grouped rows]. apply Forall_fmap, Forall_forall. intros k _. simpl.
    rewrite <- Hout, (group_row_out _ _ _ _ _ i) by done.
    unfold agg_value. by destruct (agg_func a).
  - rewrite Hs. cbn [rbind]. by exists s.
Qed.

(** ** Monthly buckets *)

Lemma monthly_row_date rs b : monthly_row rs b "InvoiceDate" = Ts (month_end b).
Proof. done. Qed.

Lemma monthly_row_label rs b :
  monthly_row rs b "Month" = Str (strftime_Ym (month_end b)).
Proof. done. Qed.

Lemma monthly_row_revenue rs b :
  monthly_row rs b "Revenue" =
  Num (total "Revenue" (month_rows "InvoiceDate" rs b)).
Proof. done. Qed.

Lemma monthly_row_profit rs b :
  monthly_row rs b "Profit" =
  Num (total "Profit" (month_rows "InvoiceDate" rs b)).
Proof. done. Qed.

Lemma month_index_month_end b : month_index (month_end b) = b.
Proof.
  unfold month_index, month_end, index_year, index_month. cbn [year month].
  pose proof (Z.div_mod b 12). lia.
Qed.

Lemma foldr_min_le m ms x : x ∈ m :: ms → (foldr Z.min m ms ≤ x)%Z.
Proof.
  induction ms as [|y ms IH]; simpl.
  - intros ->%list_elem_of_singleton. lia.
  - rewrite !elem_of_cons. intros [->|[->|Hx]].
    + assert (foldr Z.min m ms ≤ m)%Z by (apply IH; by left). lia.
    + lia.
    + assert (foldr Z.min m ms ≤ x)%Z by (apply IH; by right). lia.
Qed.

Lemma foldr_max_ge m ms x : x ∈ m :: ms → (x ≤ foldr Z.max m ms)%Z.
Proof.
  induction ms as [|y ms IH]; simpl.
  - intros ->%list_elem_of_singleton. lia.
  - rewrite !elem_of_cons. intros [->|[->|Hx]].
    + assert (m ≤ foldr Z.max m ms)%Z by (apply IH; by left). lia.
    + lia.
    + assert (x ≤ foldr Z.max m ms)%Z by (apply IH; by right). lia.
Qed.

Lemma elem_of_month_bins ms x : x ∈ ms → x ∈ month_bins ms.
Proof.
  destruct ms as [|m ms]; [done|]. intros Hx. unfold month_bins.
  apply elem_of_seqZ. pose proof (foldr_min_le m ms x Hx).
  pose proof (foldr_max_ge m ms x Hx). lia.
Qed.

Lemma Sorted_seqZ m n : Sorted Z.lt (seqZ m n).
Proof.
  remember (Z.to_nat n) as k eqn:Hk. revert m n Hk.
  induction k as [|k IH]; intros m n Hk.
  - rewrite seqZ_nil by lia. constructor.
  - rewrite seqZ_cons by lia. constructor; [apply IH; lia|].
    destruct (decide (0 < Z.pred n)%Z).
    + rewrite seqZ_cons by lia. constructor. lia.
    + rewrite seqZ_nil by lia. constructor.
Qed.

Lemma Sorted_month_bins ms : Sorted Z.lt (month_bins ms).
Proof. destruct ms; [constructor|apply Sorted_seqZ]. Qed.

Lemma months_covers key rs (r : Row) t :
  r ∈ rs → r key = Ts t → month_index t ∈ months key rs.
Proof.
  intros Hr Ht. apply elem_of_month_bins, list_elem_of_omap.
  exists (r key). split; [|by rewrite Ht].
  apply list_elem_of_fmap. by exists r.
Qed.

Lemma groupby_month_Ok f m :
  groupby_month f "InvoiceDate" monthly_aggs = Ok m →
  m = mkDF ["InvoiceDate"; "Revenue"; "Profit"]
        ((λ b, group_row ["InvoiceDate"] monthly_aggs [Ts (month_end b)]
                 (month_rows "InvoiceDate" (rows f) b))
           <$> months "InvoiceDate" (rows f)).
Proof.
  unfold groupby_month. intros H.
  apply rbind_Ok in H as (_ & _ & H).
  apply rbind_Ok in H as (s & Hs & H). apply column_Ok in Hs as [_ ->].
  apply rbind_Ok in H as (_ & _ & H).
  case_bool_decide; [|done].
  apply rbind_Ok in H as (rs & Hrs & [= <-]). f_equal.
  apply traverse_Ok in Hrs. unfold months.
  induction Hrs as [|b row bs rs Hb _ IH]; [done|].
  rewrite fmap_cons. f_equal; [|done]. by apply agg_row_Ok in Hb.
Qed.

Lemma groupby_month_total f :
  WellFormed f →
  ∃ m, groupby_month f "InvoiceDate" monthly_aggs = Ok m.
Proof.
  intros (Hc & Hn & Hd)%WellFormed_iff. unfold groupby_month.
  assert (check_columns f (agg_col <$> monthly_aggs) = Ok ()) as ->.
  { apply check_columns_Ok. intros c Hin. apply Hc. revert Hin. cbn.
    rewrite !elem_of_cons, elem_of_nil.
    intros [->|[->|[]]]; apply (bool_decide_unpack _); by vm_compute. }
  cbn [rbind].
  rewrite column_in by (apply Hc; apply (bool_decide_unpack _); by vm_compute).
  cbn [rbind].
  destruct (proj1 (dt_Ok ((λ r : Row, r "InvoiceDate") <$> rows f))) as [ts ->].
  { by apply Forall_column. }
  cbn [rbind]. rewrite bool_decide_eq_true_2
    by (apply (bool_decide_unpack _); by vm_compute).
  erewrite traverse_fmap; [cbn [rbind]; by eexists|].
  apply Forall_forall. intros b _. apply agg_row_total.
  intros a Ha Hs. apply Forall_filter_sub, Hn. revert Ha.
  unfold monthly_aggs, summed_columns. rewrite !elem_of_cons, !elem_of_nil.
  intros [->|[->|[]]]; simpl; tauto.
Qed.

(** The rest of [monthly_of] after the grouping cannot raise. *)
Lemma monthly_of_Ok f m :
  monthly_of f = Ok m ↔
  (∃ g, groupby_month f "InvoiceDate" monthly_aggs = Ok g) ∧
  m = monthly_frame f.
Proof.
  unfold monthly_of.
  assert (∀ g, groupby_month f "InvoiceDate" monthly_aggs = Ok g →
    (let? s := column g "InvoiceDate" in
     let? label := dt_strftime_Ym s in
     set_column g "Month" label) = Ok (monthly_frame f)) as Hrest.
  { intros g ->%groupby_month_Ok. unfold column. cbn [columns rows].
    rewrite bool_decide_eq_true_2
      by (apply (bool_decide_unpack _); by vm_compute).
    cbn [rbind]. rewrite <- list_fmap_compose.
    set (bins := months "InvoiceDate" (rows f)).
    assert (dt_strftime_Ym
              ((λ b, Ts (month_end b)) <$> bins) =
            Ok ((λ b, Str (strftime_Ym (month_end b))) <$> bins)) as Hl.
    { unfold dt_strftime_Ym, dt.
      rewrite (traverse_fmap _ date_cell).
      - cbn [rbind]. by rewrite <- !list_fmap_compose.
      - apply Forall_fmap, Forall_forall. by intros b _. }
    erewrite (list_fmap_ext _ (λ b, Ts (month_end b)) bins) by done.
    rewrite Hl. cbn [rbind]. unfold set_column. cbn [rows columns].
    rewrite !length_fmap, bool_decide_eq_true_2 by done.
    rewrite bool_decide_eq_false_2
      by (apply (bool_decide_unpack _); by vm_compute).
    unfold monthly_frame. f_equal. f_equal.
    rewrite zip_with_fmap_l, zip_with_fmap_r, zip_with_diag.
    by apply list_fmap_ext. }
  split.
  - intros H. apply rbind_Ok in H as (g & Hg & H).
    rewrite (Hrest g Hg) in H. injection H as <-. eauto.
  - intros [[g Hg] ->]. rewrite Hg. cbn [rbind]. by apply Hrest.
Qed.

Lemma monthly_of_total f : WellFormed f → monthly_of f = Ok (monthly_frame f).
Proof.
  intros Hwf. apply monthly_of_Ok. split; [|done].
  by apply groupby_month_total.
Qed.

(** ** The whole script *)

Lemma view_of_Ok argsort d date_start date_end country_sel top_n v news :
  view_of argsort d [date_start; date_end] country_sel top_n = Ok (v, news) →
  Shows argsort d date_start date_end country_sel top_n v.
Proof.
  unfold view_of. intros H.
  apply rbind_Ok in H as (mask & Hmask & H). apply mask_of_spec in Hmask.
  apply rbind_Ok in H as ([tr tp to avg pm] & Hk & H).
  apply rbind_Ok in H as (m & Hm%monthly_of_Ok & H).
  apply rbind_Ok in H as ([[g1 s1] t1] & (-> & Hs1 & ->)%ranked_Ok & H).
  apply rbind_Ok in H as ([[g2 s2] t2] & (-> & Hs2 & ->)%ranked_Ok & H).
  apply rbind_Ok in H as ([[g3 s3] t3] & (-> & Hs3 & ->)%ranked_Ok & H).
  injection H as <- <-. destruct Hm as [_ ->].
  split; cbn; try done; by eexists.
Qed.

Lemma WellFormed_sums d aggs :
  WellFormed d →
  Forall (λ a, agg_func a = agg_sum → agg_col a ∈ summed_columns) aggs →
  sums_numbers aggs (rows d).
Proof.
  intros (_ & Hn & _)%WellFormed_iff Haggs a Ha Hs. apply Hn.
  eapply Forall_forall in Haggs; eauto.
Qed.

Ltac solve_in := apply (bool_decide_unpack _); by vm_compute.

Lemma ranked_WellFormed argsort f by_ aggs n :
  WellFormed f →
  Forall (λ c, c ∈ required_columns) (by_ ++ (agg_col <$> aggs)) →
  NoDup (by_ ++ (agg_out <$> aggs)) →
  Forall (λ a, agg_func a = agg_sum → agg_col a ∈ summed_columns) aggs →
  (∃ a, aggs !! 0%nat = Some a ∧ agg_out a = "Revenue") →
  ∃ s, ranked argsort f by_ aggs n = Ok (grouped f by_ aggs, s, head s n).
Proof.
  intros Hwf Hc Hnd Hs (a & Ha & Hout).
  apply (ranked_total _ _ _ _ _ 0%nat a); try done.
  - intros c Hin. apply WellFormed_iff in Hwf as (Hreq & _). apply Hreq.
    by eapply Forall_forall in Hc.
  - by apply WellFormed_sums.
Qed.

Lemma view_of_total argsort d date_start date_end country_sel top_n :
  WellFormed d →
  ∃ v news,
    view_of argsort d [date_start; date_end] country_sel top_n = Ok (v, news).
Proof.
  intros Hwf. unfold view_of.
  destruct (mask_of_total d date_start date_end country_sel Hwf) as [mask ->].
  cbn [rbind]. set (f := boolean_index d mask).
  assert (WellFormed f) as Hf by by apply WellFormed_boolean_index.
  pose proof Hf as (Hc & Hn & Hd)%WellFormed_iff.
  destruct (kpis_of_total f) as [k ->];
    try (apply Hc; solve_in); try (apply Hn; solve_in).
  cbn [rbind]. rewrite (monthly_of_total f Hf). cbn [rbind].
  destruct (ranked_WellFormed argsort f ["StockCode"; "Description"]
              prod_aggs top_n Hf) as [s1 ->];
    [solve_in|solve_in| |by eexists|].
  { repeat constructor; intros _; solve_in. }
  cbn [rbind].
  destruct (ranked_WellFormed argsort f ["Country"] country_aggs 15 Hf)
    as [s2 ->]; [solve_in|solve_in| |by eexists|].
  { repeat constructor; intros _; solve_in. }
  cbn [rbind].
  destruct (ranked_WellFormed argsort f ["CustomerID"] cust_aggs top_n Hf)
    as [s3 ->]; [solve_in|solve_in| |by eexists|].
  { repeat constructor; try (intros _; solve_in). done. }
  cbn [rbind]. by eexists _, _.
Qed.

Lemma dashboard_Ok argsort h df d date_start date_end country_sel top_n v h' :
  h !! df = Some d →
  dashboard argsort df [date_start; date_end] country_sel top_n h
    = Ok (v, h') →
  Shows argsort d date_start date_end country_sel top_n v ∧
  ∃ news, h' = h ++ news.
Proof.
  intros Hdf. rewrite (dashboard_run _ _ _ _ _ _ _ Hdf).
  destruct (view_of _ _ _ _ _) as [[v' news]|] eqn:Hv; [|done].
  intros [= <- <-]. split; [by eapply view_of_Ok|by exists news].
Qed.

Lemma dashboard_total argsort h df d date_start date_end country_sel top_n :
  h !! df = Some d → WellFormed d →
  ∃ v h',
    dashboard argsort df [date_start; date_end] country_sel top_n h
      = Ok (v, h').
Proof.
  intros Hdf Hwf. rewrite (dashboard_run _ _ _ _ _ _ _ Hdf).
  destruct (view_of_total argsort d date_start date_end country_sel top_n Hwf)
    as (v & news & ->). by eexists _, _.
Qed.

(** [load_data] returns exactly when the sheet has an invoice date column
    holding dates; the table it returns is the normalized sheet. *)
Lemma load_data_Ok coerce sheet h df h' :
  load_data coerce sheet h = Ok (df, h') ↔
  "InvoiceDate" ∈ columns sheet ∧
  Forall (λ r : Row, is_date (r "InvoiceDate")) (rows sheet) ∧
  df = length h ∧ h' = h ++ [normalized coerce sheet].
Proof.
  rewrite load_data_run. destruct (normalize coerce sheet) as [d|e] eqn:Hn.
  - apply normalize_Ok in Hn as (Hin & Hd & ->). split.
    + by intros [= <- <-].
    + by intros (_ & _ & -> & ->).
  - split; [done|]. intros (Hin & Hd & _).
    assert (normalize coerce sheet = Ok (normalized coerce sheet)) as Hn'
      by by apply normalize_Ok.
    by rewrite Hn in Hn'.
Qed.

Lemma load_data_WellFormed coerce sheet h df h' :
  load_data coerce sheet h = Ok (df, h') →
  required_columns ⊆ columns sheet →
  ∃ d, h' !! df = Some d ∧ WellFormed d.
Proof.
  intros (_ & Hd & -> & ->)%load_data_Ok Hreq.
  exists (normalized coerce sheet). split; [apply heap_lookup_new|].
  by apply normalized_WellFormed.
Qed.

Global Instance descending_total vs : Total (descending vs).
Proof. intros i j. unfold descending. apply Qc_le_total. Qed.

Global Instance ascending_total vs : Total (ascending vs).
Proof. intros i j. unfold ascending. apply Qc_le_total. Qed.

Lemma argsort_mergesort_ok : ArgsortDesc argsort_mergesort.
Proof.
  split; intros vs; unfold argsort_mergesort.
  - apply merge_sort_Permutation.
  - apply (Sorted_merge_sort _).
Qed.

Lemma argsort_reversed_ok : ArgsortDesc argsort_reversed.
Proof.
  split; intros vs; unfold argsort_reversed.
  - by rewrite reverse_Permutation, merge_sort_Permutation.
  - apply (Sorted_reverse (ascending vs)), (Sorted_merge_sort _).
Qed.

Lemma example_table_loaded :
  load_data coerce_numbers example_sheet [] = Ok (0%nat, [example_table]).
Proof. apply load_data_Ok. repeat split; [solve_in|]. repeat constructor. Qed.

Lemma example_table_WellFormed : WellFormed example_table.
Proof. apply (bool_decide_unpack _). by vm_compute. Qed.

(** * The properties of the specification *)


(** The last day of the range counts from midnight only: a row dated that
    day at 00:00 is kept, a row dated later that day is not. *)
Example date_range_ends :
  in_date_range (mkDate 2024 1 15) (mkDate 2024 1 31) (Ts (mkTs 2024 1 31 0)) ∧
  ¬ in_date_range (mkDate 2024 1 15) (mkDate 2024 1 31)
      (Ts (mkTs 2024 1 31 1)).
Proof. split; apply (bool_decide_unpack _); by vm_compute. Qed.


(** Shared by the claims: on a well-formed table the script returns, and
    what it returns is described by [Shows]; the heap only grows. *)
Lemma run_shows argsort h df d date_start date_end country_sel top_n :
  h !! df = Some d → WellFormed d →
  ∃ v h',
    dashboard argsort df [date_start; date_end] country_sel top_n h
      = Ok (v, h') ∧
    Shows argsort d date_start date_end country_sel top_n v ∧
    WellFormed (View.df_f v) ∧
    ∃ news, h' = h ++ news.
Proof.
  intros Hdf Hwf.
  destruct (dashboard_total argsort h df d date_start date_end country_sel
              top_n Hdf Hwf) as (v & h' & Hrun).
  exists v, h'. split; [done|].
  destruct (dashboard_Ok _ _ _ _ _ _ _ _ _ _ Hdf Hrun) as [Hv Hh].
  split; [done|]. split; [|done].
  apply WellFormed_iff in Hwf as (Hc & Hn & Hd). apply WellFormed_iff.
  rewrite (shows_columns _ _ _ _ _ _ _ Hv), (shows_rows _ _ _ _ _ _ _ Hv).
  split; [done|]. split.
  - intros c Hin. by apply Forall_filter_sub, Hn.
  - by apply Forall_filter_sub.
Qed.

Lemma total_sum_list c (rs : list Row) qs :
  (λ r : Row, r c) <$> rs = Num <$> qs → total c rs = sum_list qs.
Proof.
  revert qs. induction rs as [|r rs IH]; intros [|q qs] [=]; [done|].
  simpl. rewrite (IH qs) by done. by destruct (r c); simplify_eq/=.
Qed.

Lemma column_numbers (f : DataFrame) c :
  WellFormed f → c ∈ summed_columns →
  ∃ qs, (λ r : Row, r c) <$> rows f = Num <$> qs.
Proof.
  intros (_ & Hn & _)%WellFormed_iff Hc. apply nums_fmap, Forall_column.
  by apply Hn.
Qed.





Lemma omap_lookup_nil {A} (idx : list nat) :
  omap (λ i, ([] : list A) !! i) idx = [].
Proof. induction idx as [|i idx IH]; [done|]. exact IH. Qed.

Lemma ranking_nil argsort f by_ aggs n t :
  rows f = [] → ranking argsort f by_ aggs n t → rows t = [].
Proof.
  intros Hf (s & (vs & _ & ->)%sort_values_desc_Ok & ->).
  cbn [head take_rows grouped rows]. rewrite Hf, group_keys_nil.
  rewrite fmap_nil, omap_lookup_nil. by destruct n.
Qed.

(** A ranking is the head of a descending rearrangement of the groups. *)
Lemma ranking_sorted argsort f by_ aggs n t :
  ArgsortDesc argsort → ranking argsort f by_ aggs n t →
  ∃ sorted,
    rows t = take n sorted ∧
    sorted ≡ₚ rows (grouped f by_ aggs) ∧
    Sorted by_revenue_desc sorted.
Proof.
  intros Hsort (s & Hs & ->). exists (rows s). split; [done|]. split.
  - by apply (sort_values_desc_Permutation argsort Hsort _ _ Hs).
  - by apply (sort_values_desc_Sorted argsort Hsort _ _ Hs).
Qed.

Lemma ranking_length argsort f by_ aggs n t :
  ranking argsort f by_ aggs n t → (length (rows t) ≤ n)%nat.
Proof. intros (s & _ & ->). cbn. rewrite length_take. lia. Qed.

Lemma ranking_descending argsort f by_ aggs n t :
  ArgsortDesc argsort → ranking argsort f by_ aggs n t →
  Sorted by_revenue_desc (rows t).
Proof.
  intros Hsort Hr.
  destruct (ranking_sorted _ _ _ _ _ _ Hsort Hr) as (sorted & -> & _ & Hs).
  by apply Sorted_take.
Qed.

(** C4. When the filters keep no row of a normalized table, the script
    still returns: the five KPIs are 0 and the monthly trend, the top
    products, the revenue by country and the top customers have no row. *)
Theorem C4_zero_rows argsort h df d date_start date_end country_sel top_n :
  h !! df = Some d → WellFormed d →
  filter (keeps date_start date_end country_sel) (rows d) = [] →
  ∃ v h',
    dashboard argsort df [date_start; date_end] country_sel top_n h
      = Ok (v, h') ∧
    View.total_revenue v = 0 ∧ View.total_profit v = 0 ∧
    View.total_orders v = 0%nat ∧
    View.avg_order_value v = 0 ∧ View.profit_margin v = 0 ∧
    rows (View.monthly v) = [] ∧ rows (View.prod v) = [] ∧
    rows (View.country v) = [] ∧ rows (View.cust v) = [].
Proof.
  intros Hdf Hwf Hzero.
  destruct (run_shows argsort h df d date_start date_end country_sel top_n
              Hdf Hwf) as (v & h' & Hrun & Hv & _ & _).
  exists v, h'. split; [done|].
  assert (rows (View.df_f v) = []) as Hf
    by by rewrite (shows_rows _ _ _ _ _ _ _ Hv).
  pose proof (kpis_of_spec _ _ (shows_kpis _ _ _ _ _ _ _ Hv))
    as (Htr & Htp & Hto & Havg & Hpm).
  cbn in Htr, Htp, Hto, Havg, Hpm. rewrite Hf in Htr, Htp, Hto.
  cbn in Htr, Htp, Hto. rewrite Hto, Htr in Havg. rewrite Htr, Htp in Hpm.
  unfold ratio_or_zero in Havg, Hpm.
  rewrite decide_False in Havg by lia. rewrite decide_False in Hpm by auto.
  repeat split; try done.
  - rewrite (shows_monthly _ _ _ _ _ _ _ Hv). unfold monthly_frame.
    by rewrite Hf.
  - eapply ranking_nil; [done|apply Hv].
  - eapply ranking_nil; [done|apply Hv].
  - eapply ranking_nil; [done|apply Hv].
Qed.

Lemma C4_zero_rows_witness :
  ∃ v h',
    dashboard argsort_mergesort 0%nat [mkDate 2025 1 1; mkDate 2025 12 31]
      [Str "UK"] 10 [example_table] = Ok (v, h') ∧
    View.total_revenue v = 0 ∧ View.total_profit v = 0 ∧
    View.total_orders v = 0%nat ∧
    View.avg_order_value v = 0 ∧ View.profit_margin v = 0 ∧
    rows (View.monthly v) = [] ∧ rows (View.prod v) = [] ∧
    rows (View.country v) = [] ∧ rows (View.cust v) = [].
Proof.
  apply (C4_zero_rows argsort_mergesort [example_table] 0%nat example_table).
  - reflexivity.
  - apply (bool_decide_unpack _). vm_compute. exact I.
  - vm_compute. reflexivity.
Defined.

(** C5. For every filtered row set and every [top_n], with a sorting
    routine that keeps the promise of [sort_values]: the top products and
    the top customers have at most [top_n] rows, the revenue by country has
    at most 15, and in each of the three the revenue never increases from a
    row to the next. *)
Theorem C5_top_n_sorted argsort h df d date_start date_end country_sel top_n :
  ArgsortDesc argsort → h !! df = Some d → WellFormed d →
  ∃ v h',
    dashboard argsort df [date_start; date_end] country_sel top_n h
      = Ok (v, h') ∧
    (length (rows (View.prod v)) ≤ top_n)%nat ∧
    (length (rows (View.cust v)) ≤ top_n)%nat ∧
    (length (rows (View.country v)) ≤ 15)%nat ∧
    Sorted by_revenue_desc (rows (View.prod v)) ∧
    Sorted by_revenue_desc (rows (View.country v)) ∧
    Sorted by_revenue_desc (rows (View.cust v)).
Proof.
  intros Hsort Hdf Hwf.
  destruct (run_shows argsort h df d date_start date_end country_sel top_n
              Hdf Hwf) as (v & h' & Hrun & Hv & _ & _).
  exists v, h'. split; [done|].
  pose proof (shows_prod _ _ _ _ _ _ _ Hv) as Hp.
  pose proof (shows_country _ _ _ _ _ _ _ Hv) as Hc.
  pose proof (shows_cust _ _ _ _ _ _ _ Hv) as Hu.
  repeat split;
    first [ by eapply ranking_length | by eapply ranking_descending ].
Qed.

Lemma C5_top_n_sorted_witness :
  ∃ v h',
    dashboard argsort_reversed 0%nat [mkDate 2024 1 1; mkDate 2024 12 31]
      [] 2 [example_table] = Ok (v, h') ∧
    (length (rows (View.prod v)) ≤ 2)%nat ∧
    (length (rows (View.cust v)) ≤ 2)%nat ∧
    (length (rows (View.country v)) ≤ 15)%nat ∧
    Sorted by_revenue_desc (rows (View.prod v)) ∧
    Sorted by_revenue_desc (rows (View.country v)) ∧
    Sorted by_revenue_desc (rows (View.cust v)).
Proof.
  apply (C5_top_n_sorted argsort_reversed [example_table] 0%nat example_table).
  - exact argsort_reversed_ok.
  - reflexivity.
  - apply (bool_decide_unpack _). vm_compute. exact I.
Defined.

(** ** Groups and their sums *)

Lemma group_row_key_of by_ aggs k g :
  NoDup by_ → length k = length by_ →
  key_of by_ (group_row by_ aggs k g) = k.
Proof.
  intros Hnd Hlen. apply list_eq. intros i. unfold key_of.
  rewrite list_lookup_fmap. destruct (by_ !! i) as [c|] eqn:Hc; simpl.
  - destruct (lookup_lt_is_Some_2 k i) as [v Hv].
    { rewrite Hlen. by eapply lookup_lt_Some. }
    rewrite Hv. f_equal. by eapply group_row_key.
  - symmetry. apply lookup_ge_None. rewrite Hlen. by apply lookup_ge_None.
Qed.

Lemma group_keys_length by_ rs k : k ∈ group_keys by_ rs → length k = length by_.
Proof.
  intros (_ & r & _ & <-)%elem_of_group_keys. apply key_of_length.
Qed.

Lemma grouped_keys f by_ aggs :
  NoDup by_ →
  key_of by_ <$> rows (grouped f by_ aggs) = group_keys by_ (rows f).
Proof.
  intros Hnd. cbn [grouped rows]. rewrite <- list_fmap_compose.
  rewrite <- (list_fmap_id (group_keys by_ (rows f))) at 2.
  apply list_fmap_ext. intros i k Hk. simpl.
  apply group_row_key_of; [done|]. eapply group_keys_length.
  by eapply list_elem_of_lookup_2.
Qed.

Lemma grouped_sums f by_ aggs cols :
  NoDup (by_ ++ (agg_out <$> aggs)) →
  Forall (λ c, named c c agg_sum ∈ aggs) cols →
  sums_per_group f by_ cols (rows (grouped f by_ aggs)).
Proof.
  intros Hnd Hcols. pose proof Hnd as (Hby & _ & _)%NoDup_app.
  unfold sums_per_group. rewrite grouped_keys by done.
  split; [apply NoDup_group_keys|]. split; [apply elem_of_group_keys|].
  intros g c Hg Hc. cbn [grouped rows] in Hg.
  apply list_elem_of_fmap in Hg as (k & -> & Hk).
  rewrite group_row_key_of by (done || by eapply group_keys_length).
  eapply Forall_forall in Hcols; [|done].
  apply list_elem_of_lookup in Hcols as [i Hi].
  by rewrite (group_row_out by_ aggs k _ (named c c agg_sum) i).
Qed.

Lemma sums_per_group_Permutation f by_ cols l1 l2 :
  l1 ≡ₚ l2 → sums_per_group f by_ cols l1 → sums_per_group f by_ cols l2.
Proof.
  intros Hp (Hnd & Hk & Hs). split; [by rewrite <- Hp|]. split.
  - intros k. by rewrite <- Hp.
  - intros g c Hg. apply Hs. by rewrite Hp.
Qed.

Lemma insert_stable_Permutation x l : insert_stable x l ≡ₚ x :: l.
Proof.
  induction l as [|y l IH]; [done|]. simpl. case_bool_decide; [done|].
  rewrite IH. apply Permutation_swap.
Qed.

Lemma stable_sort_desc_Permutation l : stable_sort_desc l ≡ₚ l.
Proof.
  unfold stable_sort_desc. rewrite <- (app_nil_l l) at 2.
  generalize (@nil Row) as acc. induction l as [|x l IH]; intros acc; simpl.
  - by rewrite app_nil_r.
  - rewrite IH, insert_stable_Permutation.
    by rewrite <- Permutation_middle.
Qed.

Global Instance by_revenue_desc_trans : Transitive by_revenue_desc.
Proof.
  intros a b c Hab Hbc. unfold by_revenue_desc in *.
  by eapply Qcle_trans.
Qed.

Lemma insert_stable_Sorted x l :
  Sorted by_revenue_desc l → Sorted by_revenue_desc (insert_stable x l).
Proof.
  induction 1 as [|y l Hs IH Hhd]; simpl.
  - repeat constructor.
  - case_bool_decide as Hlt.
    + constructor; [by constructor|]. constructor.
      unfold by_revenue_desc. by apply Qclt_le_weak.
    + constructor; [done|]. apply Qcnot_lt_le in Hlt.
      destruct Hhd as [|z l Hyz]; simpl.
      * by constructor.
      * case_bool_decide; by constructor.
Qed.

Lemma stable_sort_desc_Sorted l : Sorted by_revenue_desc (stable_sort_desc l).
Proof.
  unfold stable_sort_desc.
  assert (Sorted by_revenue_desc (@nil Row)) as H by constructor.
  revert H. generalize (@nil Row) as acc.
  induction l as [|x l IH]; intros acc Hacc; simpl; [done|].
  by apply IH, insert_stable_Sorted.
Qed.

(** Rows with pairwise different revenue have one descending order. *)
Lemma descending_unique (l1 l2 : list Row) :
  (∀ a b : Row, a ∈ l1 → b ∈ l1 →
     number (a "Revenue") = number (b "Revenue") → a = b) →
  l1 ≡ₚ l2 →
  Sorted by_revenue_desc l1 → Sorted by_revenue_desc l2 → l1 = l2.
Proof.
  intros Hinj Hp H1 H2.
  apply (StronglySorted_unique_strong by_revenue_desc); try done.
  - intros a b Ha Hb Hab Hba. apply Hinj; [done|by rewrite Hp|].
    unfold by_revenue_desc in *. by apply Qcle_antisym.
  - by apply (Sorted_StronglySorted by_revenue_desc).
  - by apply (Sorted_StronglySorted by_revenue_desc).
Qed.




(** ** The months of the trend *)

Lemma foldr_min_in m ms : foldr Z.min m ms ∈ m :: ms.
Proof.
  induction ms as [|y ms IH]; simpl; [by left|].
  destruct (Z.min_spec y (foldr Z.min m ms)) as [[_ ->]|[_ ->]].
  - right. by left.
  - apply elem_of_cons in IH as [->|IH]; [by left|]. right. by right.
Qed.

Lemma foldr_max_in m ms : foldr Z.max m ms ∈ m :: ms.
Proof.
  induction ms as [|y ms IH]; simpl; [by left|].
  destruct (Z.max_spec y (foldr Z.max m ms)) as [[_ ->]|[_ ->]].
  - apply elem_of_cons in IH as [->|IH]; [by left|]. right. by right.
  - right. by left.
Qed.

Lemma elem_of_month_bins_iff ms b :
  b ∈ month_bins ms ↔ ∃ lo hi, lo ∈ ms ∧ hi ∈ ms ∧ (lo ≤ b ≤ hi)%Z.
Proof.
  destruct ms as [|m ms].
  - split; [by intros ?%elem_of_nil|]. by intros (? & ? & ?%elem_of_nil & _).
  - unfold month_bins. rewrite elem_of_seqZ. split.
    + intros Hb. exists (foldr Z.min m ms), (foldr Z.max m ms).
      split; [apply foldr_min_in|]. split; [apply foldr_max_in|]. lia.
    + intros (lo & hi & Hlo & Hhi & Hb).
      pose proof (foldr_min_le m ms lo Hlo).
      pose proof (foldr_max_ge m ms hi Hhi). lia.
Qed.

Lemma elem_of_months key (rs : list Row) m :
  m ∈ omap cell_month ((λ r : Row, r key) <$> rs) ↔
  ∃ (r : Row) t, r ∈ rs ∧ r key = Ts t ∧ month_index t = m.
Proof.
  rewrite list_elem_of_omap. split.
  - intros (c & (r & -> & Hr)%list_elem_of_fmap & Hc).
    destruct (r key) as [| | |t] eqn:Ht; simplify_eq/=. by exists r, t.
  - intros (r & t & Hr & Ht & <-). exists (r key). split.
    + apply list_elem_of_fmap. by exists r.
    + by rewrite Ht.
Qed.


(** Rows in January and in March 2024 give a bucket for February too. *)
Example month_bins_gap :
  month_bins [month_index (mkTs 2024 1 15 0); month_index (mkTs 2024 3 2 0)]
  = [month_index (mkTs 2024 1 1 0); month_index (mkTs 2024 2 1 0);
     month_index (mkTs 2024 3 1 0)].
Proof. reflexivity. Qed.


(** C8. On the three-row table of the scenario, whatever its other
    columns hold, with the countries [{UK}] and the full date range
    2024-01-15 to 2024-02-01: total revenue 150, total profit 15, one
    order, average order value 150, profit margin 1/10, and a monthly
    trend of one row, labelled 2024-01, with revenue 150 and profit 15. *)
Theorem C8_scenario argsort h df cols b1 b2 b3 top_n :
  h !! df = Some (scenario cols b1 b2 b3) →
  WellFormed (scenario cols b1 b2 b3) →
  ∃ v h',
    dashboard argsort df [mkDate 2024 1 15; mkDate 2024 2 1] [Str "UK"]
      top_n h = Ok (v, h') ∧
    View.total_revenue v = Qc_of_Z 150 ∧
    View.total_profit v = Qc_of_Z 15 ∧
    View.total_orders v = 1%nat ∧
    View.avg_order_value v = Qc_of_Z 150 ∧
    View.profit_margin v = Qc_of_Z 1 / Qc_of_Z 10 ∧
    ∃ row : Row,
      rows (View.monthly v) = [row] ∧
      row "Month" = Str "2024-01" ∧
      row "Revenue" = Num (Qc_of_Z 150) ∧
      row "Profit" = Num (Qc_of_Z 15).
Proof.
  intros Hdf Hwf.
  destruct (run_shows argsort h df _ (mkDate 2024 1 15) (mkDate 2024 2 1)
              [Str "UK"] top_n Hdf Hwf) as (v & h' & Hrun & Hv & _ & _).
  exists v, h'. split; [done|].
  assert (rows (View.df_f v) =
            [scenario_row b1 "UK" 100 20 "A" (mkDate 2024 1 15);
             scenario_row b2 "UK" 50 (-5) "A" (mkDate 2024 1 20)]) as Hf.
  { rewrite (shows_rows _ _ _ _ _ _ _ Hv). cbn [scenario rows].
    rewrite filter_cons_True; [|by apply (bool_decide_unpack _)].
    rewrite filter_cons_True; [|by apply (bool_decide_unpack _)].
    rewrite filter_cons_False; [done|].
    apply (bool_decide_unpack _). by vm_compute. }
  pose proof (kpis_of_spec _ _ (shows_kpis _ _ _ _ _ _ _ Hv))
    as (Htr & Htp & Hto & Havg & Hpm).
  cbn in Htr, Htp, Hto, Havg, Hpm. rewrite Hf in Htr, Htp, Hto.
  assert (View.total_revenue v = Qc_of_Z 150) as Hr150
    by (rewrite Htr; apply Qc_is_canon; by vm_compute).
  assert (View.total_profit v = Qc_of_Z 15) as Hp15
    by (rewrite Htp; apply Qc_is_canon; by vm_compute).
  assert (View.total_orders v = 1%nat) as Ho1 by (rewrite Hto; by vm_compute).
  rewrite Ho1, Hr150 in Havg. rewrite Hr150, Hp15 in Hpm.
  split; [done|]. split; [done|]. split; [done|].
  split; [rewrite Havg; apply Qc_is_canon; by vm_compute|].
  split; [rewrite Hpm; apply Qc_is_canon; by vm_compute|].
  rewrite (shows_monthly _ _ _ _ _ _ _ Hv). unfold monthly_frame.
  rewrite Hf. eexists. split; [by vm_compute|].
  split; [by vm_compute|]. split; f_equal; apply Qc_is_canon; by vm_compute.
Qed.

Lemma C8_scenario_witness :
  ∃ v h',
    dashboard argsort_mergesort 0%nat [mkDate 2024 1 15; mkDate 2024 2 1]
      [Str "UK"] 10
      [scenario (columns example_table)
         (sheet_row "x" "P1" "mug" (qz 2) (mkTs 2024 1 1 0) (qz 7) "x" 0 0)
         (sheet_row "y" "P2" "cup" (qz 1) (mkTs 2024 1 1 0) (qz 7) "y" 0 0)
         (sheet_row "z" "P1" "mug" (qz 4) (mkTs 2024 1 1 0) NaN "z" 0 0)]
      = Ok (v, h') ∧
    View.total_revenue v = Qc_of_Z 150 ∧
    View.total_profit v = Qc_of_Z 15 ∧
    View.total_orders v = 1%nat ∧
    View.avg_order_value v = Qc_of_Z 150 ∧
    View.profit_margin v = Qc_of_Z 1 / Qc_of_Z 10 ∧
    ∃ row : Row,
      rows (View.monthly v) = [row] ∧
      row "Month" = Str "2024-01" ∧
      row "Revenue" = Num (Qc_of_Z 150) ∧
      row "Profit" = Num (Qc_of_Z 15).
Proof.
  apply (C8_scenario argsort_mergesort _ 0%nat (columns example_table)
           (sheet_row "x" "P1" "mug" (qz 2) (mkTs 2024 1 1 0) (qz 7) "x" 0 0)
           (sheet_row "y" "P2" "cup" (qz 1) (mkTs 2024 1 1 0) (qz 7) "y" 0 0)
           (sheet_row "z" "P1" "mug" (qz 4) (mkTs 2024 1 1 0) NaN "z" 0 0)).
  - reflexivity.
  - apply (bool_decide_unpack _). vm_compute. exact I.
Defined.

(** C9. Running the script leaves the loaded table as it was: [df]
    refers to the same frame before and after, every frame that existed
    before the run is unchanged, and the frames the script made (the
    filtered copy [df_f] first, then the aggregates) are new objects
    behind them. *)
Theorem C9_source_unchanged argsort h df d date_start date_end country_sel
    top_n :
  h !! df = Some d → WellFormed d →
  ∃ v h',
    dashboard argsort df [date_start; date_end] country_sel top_n h
      = Ok (v, h') ∧
    h' !! df = Some d ∧
    (∀ r x, h !! r = Some x → h' !! r = Some x) ∧
    ∃ created,
      h' = h ++ created ∧ created !! 1%nat = Some (View.df_f v).
Proof.
  intros Hdf Hwf.
  destruct (dashboard_total argsort h df d date_start date_end country_sel
              top_n Hdf Hwf) as (v & h' & Hrun).
  exists v, h'. split; [done|].
  rewrite (dashboard_run _ _ _ _ _ _ _ Hdf) in Hrun.
  destruct (view_of _ _ _ _ _) as [[v' created]|] eqn:Hview; [|done].
  injection Hrun as -> <-.
  split; [by apply heap_lookup_old|].
  split; [intros r x; apply heap_lookup_old|].
  exists created. split; [done|].
  unfold view_of in Hview.
  repeat (apply rbind_Ok in Hview as (? & ? & Hview)).
  by injection Hview as <- <-.
Qed.

Lemma C9_source_unchanged_witness :
  ∃ v h',
    dashboard argsort_mergesort 0%nat [mkDate 2024 1 1; mkDate 2024 12 31]
      [Str "UK"] 10 [example_table] = Ok (v, h') ∧
    h' !! 0%nat = Some example_table ∧
    (∀ r x, [example_table] !! r = Some x → h' !! r = Some x) ∧
    ∃ created,
      h' = [example_table] ++ created ∧
      created !! 1%nat = Some (View.df_f v).
Proof.
  apply (C9_source_unchanged argsort_mergesort [example_table] 0%nat
           example_table).
  - reflexivity.
  - apply (bool_decide_unpack _). vm_compute. exact I.
Defined.

(** ** Rows without a group label *)

Lemma filter_fmap {A B} (f : A → B) (P : B → Prop) `{!∀ y, Decision (P y)}
    (l : list A) :
  filter P (f <$> l) = f <$> filter (λ x, P (f x)) l.
Proof.
  induction l as [|x l IH]; [done|]. rewrite fmap_cons.
  destruct (decide (P (f x))) as [Hx|Hx].
  - rewrite !filter_cons_True by done. by rewrite fmap_cons, IH.
  - by rewrite !filter_cons_False by done.
Qed.

Lemma grouped_dropna f by_ aggs :
  grouped f by_ aggs =
  grouped (mkDF (columns f)
             (filter (λ r : Row, NaN ∉ key_of by_ r) (rows f))) by_ aggs.
Proof.
  unfold grouped. cbn [rows]. f_equal.
  assert (group_keys by_ (filter (λ r : Row, NaN ∉ key_of by_ r) (rows f)) =
          group_keys by_ (rows f)) as ->.
  { unfold group_keys. do 2 f_equal. rewrite !filter_fmap.
    f_equal. by apply list_filter_filter_l. }
  apply list_fmap_ext. intros i k Hk. f_equal. unfold members.
  symmetry. apply list_filter_filter_l. intros r ->.
  apply list_elem_of_lookup_2, elem_of_group_keys in Hk. tauto.
Qed.

Lemma grouped_rows_ext f1 f2 by_ aggs :
  rows f1 = rows f2 → grouped f1 by_ aggs = grouped f2 by_ aggs.
Proof. unfold grouped. by intros ->. Qed.

Lemma ranking_subseteq argsort f by_ aggs n t (g : Row) :
  ranking argsort f by_ aggs n t → g ∈ rows t →
  g ∈ rows (grouped f by_ aggs).
Proof.
  intros (s & (vs & _ & ->)%sort_values_desc_Ok & ->) Hg.
  cbn [head take_rows rows] in Hg. apply elem_of_take in Hg as (i & Hg & _).
  apply list_elem_of_lookup_2, list_elem_of_omap in Hg as (j & _ & Hj).
  by eapply list_elem_of_lookup_2.
Qed.

Lemma WellFormed_filter d (P : Row → Prop) `{!∀ r, Decision (P r)} :
  WellFormed d → WellFormed (mkDF (columns d) (filter P (rows d))).
Proof.
  intros (Hc & Hn & Hd)%WellFormed_iff. apply WellFormed_iff.
  split; [done|]. split.
  - intros c Hin. by apply Forall_filter_sub, Hn.
  - by apply Forall_filter_sub.
Qed.

(** C10. For every filtered row set, no row of the top customers has a
    missing customer id, and the rows of the table that lack a customer id
    have no part in it: the script run on the table without these rows
    shows the same top customers. *)
Theorem C10_missing_customers argsort h df d date_start date_end country_sel
    top_n :
  h !! df = Some d → WellFormed d →
  ∃ v h',
    dashboard argsort df [date_start; date_end] country_sel top_n h
      = Ok (v, h') ∧
    (∀ g : Row, g ∈ rows (View.cust v) → g "CustomerID" ≠ NaN) ∧
    (∀ h2 df2,
       h2 !! df2 =
         Some (mkDF (columns d)
                 (filter (λ r : Row, r "CustomerID" ≠ NaN) (rows d))) →
       ∃ v2 h2',
         dashboard argsort df2 [date_start; date_end] country_sel top_n h2
           = Ok (v2, h2') ∧
         View.cust v2 = View.cust v).
Proof.
  intros Hdf Hwf.
  destruct (run_shows argsort h df d date_start date_end country_sel top_n
              Hdf Hwf) as (v & h' & Hrun & Hv & _ & _).
  exists v, h'. split; [done|]. split.
  - intros g Hg.
    apply (ranking_subseteq _ _ _ _ _ _ _ (shows_cust _ _ _ _ _ _ _ Hv)) in Hg.
    cbn [grouped rows] in Hg. apply list_elem_of_fmap in Hg as (k & -> & Hk).
    pose proof (group_keys_length _ _ _ Hk) as Hlen.
    apply elem_of_group_keys in Hk as [Hna _].
    destruct k as [|c [|? ?]]; try done.
    rewrite (group_row_key ["CustomerID"] _ [c] _ 0%nat "CustomerID" c);
      [|solve_in|done|done].
    intros ->. apply Hna. by left.
  - intros h2 df2 Hdf2.
    destruct (run_shows argsort h2 df2 _ date_start date_end country_sel top_n
                Hdf2 (WellFormed_filter d _ Hwf))
      as (v2 & h2' & Hrun2 & Hv2 & _ & _).
    exists v2, h2'. split; [done|].
    destruct (shows_cust _ _ _ _ _ _ _ Hv) as (s & Hs & ->).
    destruct (shows_cust _ _ _ _ _ _ _ Hv2) as (s2 & Hs2 & ->).
    assert (grouped (View.df_f v2) ["CustomerID"] cust_aggs =
            grouped (View.df_f v) ["CustomerID"] cust_aggs) as Hg.
    { rewrite (grouped_dropna (View.df_f v2)), (grouped_dropna (View.df_f v)).
      apply grouped_rows_ext. cbn [rows].
      rewrite (shows_rows _ _ _ _ _ _ _ Hv), (shows_rows _ _ _ _ _ _ _ Hv2).
      cbn [rows]. rewrite !list_filter_filter. apply list_filter_iff.
      intros r. unfold key_of. cbn. rewrite !list_elem_of_singleton.
      split; [tauto|]. intros [Hna Hk]. split; [done|]. congruence. }
    rewrite Hg in Hs2. rewrite Hs in Hs2. by injection Hs2 as <-.
Qed.

Lemma C10_missing_customers_witness :
  ∃ v h',
    dashboard argsort_mergesort 0%nat [mkDate 2024 1 1; mkDate 2024 12 31]
      [] 10 [example_table] = Ok (v, h') ∧
    (∀ g : Row, g ∈ rows (View.cust v) → g "CustomerID" ≠ NaN) ∧
    (∀ h2 df2,
       h2 !! df2 =
         Some (mkDF (columns example_table)
                 (filter (λ r : Row, r "CustomerID" ≠ NaN)
                         (rows example_table))) →
       ∃ v2 h2',
         dashboard argsort_mergesort df2 [mkDate 2024 1 1; mkDate 2024 12 31]
           [] 10 h2 = Ok (v2, h2') ∧
         View.cust v2 = View.cust v).
Proof.
  apply (C10_missing_customers argsort_mergesort [example_table] 0%nat
           example_table).
  - reflexivity.
  - apply (bool_decide_unpack _). vm_compute. exact I.
Defined.

(** * Further properties of the code *)

(** ** The loader beyond the numeric columns *)

Lemma normalized_row_absent coerce present (r : Row) c :
  c ∉ present → c ≠ "Month" → normalized_row coerce present r c = r c.
Proof.
  intros Hc Hm. unfold normalized_row. rewrite update_ne by done.
  rewrite coerce_row_lookup by apply numeric_columns_NoDup.
  rewrite bool_decide_eq_false_2; [done|tauto].
Qed.

Lemma normalized_row_month coerce present (r : Row) :
  normalized_row coerce present r "Month" =
  of_dt (month_start <$> date_cell (r "InvoiceDate")).
Proof.
  unfold normalized_row. by rewrite update_eq, coerce_row_date.
Qed.



Lemma dt_not_dates s :
  Exists (λ c, ¬ is_date c) s → dt s = Raise AttributeError.
Proof.
  unfold dt. induction s as [|c s IH]; intros H.
  - by apply Exists_nil in H.
  - apply Exists_cons in H. simpl.
    destruct c as [| | |t]; simpl; try done.
    + destruct H as [H|H]; [by destruct H|]. by rewrite IH.
    + destruct H as [H|H]; [by destruct H|]. by rewrite IH.
Qed.

(** X2. When the invoice date column holds a value that is no date (a
    number, or a string [read_excel] could not parse), [load_data] raises
    the [AttributeError] of the [.dt] accessor, whatever the other columns
    hold. *)
Theorem X2_load_data_not_dates coerce sheet h :
  "InvoiceDate" ∈ columns sheet →
  Exists (λ r : Row, ¬ is_date (r "InvoiceDate")) (rows sheet) →
  load_data coerce sheet h = Raise AttributeError.
Proof.
  intros Hin Hex. rewrite load_data_run. unfold normalize.
  rewrite ensure_numeric_of_spec. cbn [rbind].
  rewrite column_in by done. cbn [rbind rows].
  unfold dt_month_start. rewrite dt_not_dates; [done|].
  rewrite <- list_fmap_compose. apply Exists_fmap.
  eapply Exists_impl; [done|]. intros r Hr. unfold compose.
  by rewrite coerce_row_date.
Qed.

Lemma X2_load_data_not_dates_witness :
  load_data coerce_numbers
    (mkDF ["InvoiceDate"; "Revenue"]
       [mkrow [("InvoiceDate", Ts (mkTs 2024 1 15 0)); ("Revenue", qz 1)];
        mkrow [("InvoiceDate", Str "n/a"); ("Revenue", qz 2)]]) []
  = Raise AttributeError.
Proof.
  apply X2_load_data_not_dates.
  - apply (bool_decide_unpack _). vm_compute. exact I.
  - apply (bool_decide_unpack _). vm_compute. exact I.
Defined.

(** ** Errors of the script *)



Lemma mask_of_dates d date_start date_end country_sel :
  "InvoiceDate" ∈ columns d →
  Forall (λ r : Row, is_date (r "InvoiceDate")) (rows d) →
  country_sel = [] ∨ "Country" ∈ columns d →
  ∃ mask, mask_of d [date_start; date_end] country_sel = Ok mask.
Proof.
  intros Hin Hd Hc. unfold mask_of. cbn [index lookup list_lookup rbind].
  rewrite !column_in by done. cbn [rbind]. unfold series_ge, series_le.
  rewrite !cmp_ts_spec by by apply Forall_column. cbn [rbind].
  destruct country_sel as [|c0 cs]; [by eexists|].
  destruct Hc as [[=]|Hc]. rewrite column_in by done. by eexists.
Qed.

Lemma normalized_dates coerce sheet :
  Forall (λ r : Row, is_date (r "InvoiceDate")) (rows sheet) →
  Forall (λ r : Row, is_date (r "InvoiceDate")) (rows (normalized coerce sheet)).
Proof.
  intros Hd. cbn [normalized rows]. apply Forall_fmap.
  eapply Forall_impl; [done|]. intros r Hr. unfold compose.
  by rewrite normalized_row_date.
Qed.

Lemma normalized_columns coerce sheet c :
  c ∈ columns (normalized coerce sheet) ↔ c ∈ columns sheet ∨ c = "Month".
Proof.
  cbn [normalized columns]. case_bool_decide as Hm.
  - split; [by left|]. by intros [?| ->].
  - rewrite elem_of_app, list_elem_of_singleton. done.
Qed.



(** ** The whole program on a raw sheet *)

Lemma keeps_normalized_row coerce present date_start date_end country_sel
    (r : Row) :
  keeps date_start date_end country_sel (normalized_row coerce present r) ↔
  keeps date_start date_end country_sel r.
Proof.
  unfold keeps. rewrite normalized_row_date.
  rewrite (normalized_row_other _ _ _ "Country"); [done| |done].
  apply (bool_decide_unpack _). by vm_compute.
Qed.

Lemma total_fmap {A} (f : A → Row) c (l : list A) :
  total c (f <$> l) = sum_list ((λ x, number (f x c)) <$> l).
Proof.
  induction l as [|x l IH]; [done|].
  rewrite !fmap_cons. unfold total, sum_list in *. simpl. by rewrite IH.
Qed.



(** ** Sums over a partition of the rows *)

Lemma sum_list_plus {A} (f g : A → Qc) (l : list A) :
  sum_list ((λ x, f x + g x) <$> l) = sum_list (f <$> l) + sum_list (g <$> l).
Proof.
  induction l as [|x l IH].
  - unfold sum_list. simpl. ring.
  - rewrite !fmap_cons. unfold sum_list in *. simpl. rewrite IH. ring.
Qed.

Lemma sum_list_indicator {K} `{EqDecision K} (k0 : K) (q : Qc) (ks : list K) :
  NoDup ks →
  sum_list ((λ k, if decide (k0 = k) then q else 0) <$> ks) =
  if decide (k0 ∈ ks) then q else 0.
Proof.
  induction 1 as [|k ks Hk _ IH].
  - rewrite decide_False; [done|]. by apply not_elem_of_nil.
  - rewrite fmap_cons. unfold sum_list in *. simpl. rewrite IH.
    destruct (decide (k0 = k)) as [->|Hne].
    + rewrite (decide_False (P := k ∈ ks)) by done.
      rewrite (decide_True (P := k ∈ k :: ks)) by left. ring.
    + destruct (decide (k0 ∈ ks)) as [Hin|Hin].
      * rewrite (decide_True (P := k0 ∈ k :: ks)) by by right. ring.
      * rewrite (decide_False (P := k0 ∈ k :: ks)); [ring|].
        by intros [?|?]%elem_of_cons.
Qed.

(** The rows split by a key: the sums of the parts add up to the sum. *)
Lemma total_partition {K} `{EqDecision K} (key : Row → K) c (ks : list K)
    (rs : list Row) :
  NoDup ks → Forall (λ r, key r ∈ ks) rs →
  sum_list ((λ k, total c (filter (λ r, key r = k) rs)) <$> ks) = total c rs.
Proof.
  intros Hnd. induction 1 as [|r rs Hr _ IH].
  - clear Hnd. induction ks as [|k ks IHk]; [done|].
    rewrite fmap_cons. unfold sum_list in *. cbn [foldr]. rewrite IHk.
    exact (Qcplus_0_l 0).
  - transitivity
      (sum_list ((λ k, (if decide (key r = k) then number (r c) else 0) +
                       total c (filter (λ r, key r = k) rs)) <$> ks)).
    { f_equal. apply list_fmap_ext. intros _ k _. rewrite filter_cons.
      destruct (decide (key r = k)); [done|]. by rewrite Qcplus_0_l. }
    rewrite sum_list_plus, sum_list_indicator, IH by done.
    by rewrite decide_True.
Qed.

Lemma total_Permutation c (l1 l2 : list Row) :
  l1 ≡ₚ l2 → total c l1 = total c l2.
Proof.
  induction 1 as [|r l1 l2 _ IH|r1 r2 l|l1 l2 l3 _ IH1 _ IH2];
    unfold total in *; simpl.
  - done.
  - by rewrite IH.
  - ring.
  - congruence.
Qed.

Lemma shows_total_revenue argsort d date_start date_end country_sel top_n v :
  Shows argsort d date_start date_end country_sel top_n v →
  View.total_revenue v = total "Revenue" (rows (View.df_f v)) ∧
  View.total_profit v = total "Profit" (rows (View.df_f v)) ∧
  View.total_orders v =
    nunique ((λ r : Row, r "InvoiceNo") <$> rows (View.df_f v)).
Proof.
  intros Hv.
  destruct (kpis_of_spec _ _ (shows_kpis _ _ _ _ _ _ _ Hv))
    as (Hrev & Hprof & Hord & _). done.
Qed.

Lemma NoDup_month_bins ms : NoDup (month_bins ms).
Proof.
  destruct ms as [|m ms]; [constructor|]. apply NoDup_seqZ.
Qed.

Lemma monthly_total c (i : nat) (f : DataFrame) :
  monthly_aggs !! i = Some (named c c agg_sum) →
  Forall (λ r : Row, ∃ t, r "InvoiceDate" = Ts t) (rows f) →
  total c (rows (monthly_frame f)) = total c (rows f).
Proof.
  intros Hi Hd. cbn [monthly_frame rows]. rewrite total_fmap.
  rewrite <- (total_partition (λ r : Row, cell_month (r "InvoiceDate")) c
                (Some <$> months "InvoiceDate" (rows f))).
  - rewrite <- list_fmap_compose. f_equal. apply list_fmap_ext.
    intros _ b _. simpl. unfold monthly_row.
    rewrite update_ne.
    + by rewrite (group_row_out _ _ _ _ (named c c agg_sum) i)
        by (done || solve_in).
    + intros ->. revert Hi. by destruct i as [|[|[|]]].
  - apply (NoDup_fmap_2 _). apply NoDup_month_bins.
  - apply Forall_forall. intros r Hr.
    destruct (proj1 (Forall_forall _ _) Hd r Hr) as [t Ht].
    rewrite Ht. simpl. apply list_elem_of_fmap. exists (month_index t).
    split; [done|]. by eapply months_covers.
Qed.



(** ** The rankings by country and by customer *)

Lemma ranking_columns argsort f by_ aggs n t :
  ranking argsort f by_ aggs n t → columns t = by_ ++ (agg_out <$> aggs).
Proof. by intros (s & (vs & _ & ->)%sort_values_desc_Ok & ->). Qed.

Lemma grouped_row f by_ aggs (g : Row) :
  NoDup by_ → g ∈ rows (grouped f by_ aggs) →
  key_of by_ g ∈ group_keys by_ (rows f) ∧
  g = group_row by_ aggs (key_of by_ g) (members by_ (rows f) (key_of by_ g)).
Proof.
  intros Hnd Hg. cbn [grouped rows] in Hg.
  apply list_elem_of_fmap in Hg as (k & -> & Hk).
  by rewrite group_row_key_of by (done || by eapply group_keys_length).
Qed.

(** X7. The revenue by country table has the columns [Country] and
    [Revenue]; its rows are the first 15 of a list, sorted by revenue
    downwards, that holds one row for each country of the filtered rows
    with the sum of the revenue of the rows of that country; rows without
    a country are in no group. *)
Theorem X7_revenue_by_country argsort h df d date_start date_end country_sel
    top_n :
  ArgsortDesc argsort → h !! df = Some d → WellFormed d →
  ∃ v h',
    dashboard argsort df [date_start; date_end] country_sel top_n h
      = Ok (v, h') ∧
    columns (View.country v) = ["Country"; "Revenue"] ∧
    ∃ sorted : list Row,
      rows (View.country v) = take 15 sorted ∧
      Sorted by_revenue_desc sorted ∧
      sums_per_group (View.df_f v) ["Country"] ["Revenue"] sorted.
Proof.
  intros Hsort Hdf Hwf.
  destruct (run_shows argsort h df d date_start date_end country_sel top_n
              Hdf Hwf) as (v & h' & Hrun & Hv & _ & _).
  exists v, h'. split; [done|].
  pose proof (shows_country _ _ _ _ _ _ _ Hv) as Hr.
  split; [by apply ranking_columns in Hr|].
  destruct (ranking_sorted _ _ _ _ _ _ Hsort Hr) as (sorted & Hrows & Hp & Hs).
  exists sorted. split; [done|]. split; [done|].
  apply (sums_per_group_Permutation _ _ _ _ _ (symmetry Hp)).
  apply grouped_sums; [solve_in|]. repeat constructor; solve_in.
Qed.

Lemma X7_revenue_by_country_witness :
  ∃ v h',
    dashboard argsort_mergesort 0%nat [mkDate 2024 1 1; mkDate 2024 12 31]
      [] 10 [example_table] = Ok (v, h') ∧
    columns (View.country v) = ["Country"; "Revenue"] ∧
    ∃ sorted : list Row,
      rows (View.country v) = take 15 sorted ∧
      Sorted by_revenue_desc sorted ∧
      sums_per_group (View.df_f v) ["Country"] ["Revenue"] sorted.
Proof.
  apply (X7_revenue_by_country argsort_mergesort [example_table] 0%nat
           example_table).
  - apply argsort_mergesort_ok.
  - reflexivity.
  - apply (bool_decide_unpack _). vm_compute. exact I.
Defined.

(** X8. The top customers table has the columns [CustomerID], [Revenue]
    and [Orders]; its rows are the first [top_n] of a list, sorted by
    revenue downwards, with one row for each customer of the filtered
    rows: [Revenue] is the sum of the revenue of the customer's rows and
    [Orders] the number of distinct invoice ids among them, missing ids
    apart. *)
Theorem X8_top_customers argsort h df d date_start date_end country_sel
    top_n :
  ArgsortDesc argsort → h !! df = Some d → WellFormed d →
  ∃ v h',
    dashboard argsort df [date_start; date_end] country_sel top_n h
      = Ok (v, h') ∧
    columns (View.cust v) = ["CustomerID"; "Revenue"; "Orders"] ∧
    ∃ sorted : list Row,
      rows (View.cust v) = take top_n sorted ∧
      Sorted by_revenue_desc sorted ∧
      sums_per_group (View.df_f v) ["CustomerID"] ["Revenue"] sorted ∧
      ∀ g : Row, g ∈ sorted →
        g "Orders" =
        Num (Qc_of_nat
               (nunique ((λ r : Row, r "InvoiceNo") <$>
                         filter (λ r : Row, r "CustomerID" = g "CustomerID")
                                (rows (View.df_f v))))).
Proof.
  intros Hsort Hdf Hwf.
  destruct (run_shows argsort h df d date_start date_end country_sel top_n
              Hdf Hwf) as (v & h' & Hrun & Hv & _ & _).
  exists v, h'. split; [done|].
  pose proof (shows_cust _ _ _ _ _ _ _ Hv) as Hr.
  split; [by apply ranking_columns in Hr|].
  destruct (ranking_sorted _ _ _ _ _ _ Hsort Hr) as (sorted & Hrows & Hp & Hs).
  exists sorted. split; [done|]. split; [done|]. split.
  - apply (sums_per_group_Permutation _ _ _ _ _ (symmetry Hp)).
    apply grouped_sums; [solve_in|]. repeat constructor; solve_in.
  - intros g Hg. rewrite Hp in Hg.
    apply grouped_row in Hg as [_ Hg]; [|solve_in].
    apply (f_equal (λ x : Row, x "Orders")) in Hg. cbn beta in Hg.
    rewrite Hg.
    rewrite (group_row_out _ _ _ _ (named "Orders" "InvoiceNo" agg_nunique)
               1) by (done || solve_in).
    unfold agg_value, members. cbn [agg_func agg_col]. do 4 f_equal.
    apply list_filter_iff. intros r. unfold key_of. simpl.
    split; [by intros [=]|by intros ->].
Qed.

Lemma X8_top_customers_witness :
  ∃ v h',
    dashboard argsort_mergesort 0%nat [mkDate 2024 1 1; mkDate 2024 12 31]
      [] 10 [example_table] = Ok (v, h') ∧
    columns (View.cust v) = ["CustomerID"; "Revenue"; "Orders"] ∧
    ∃ sorted : list Row,
      rows (View.cust v) = take 10 sorted ∧
      Sorted by_revenue_desc sorted ∧
      sums_per_group (View.df_f v) ["CustomerID"] ["Revenue"] sorted ∧
      ∀ g : Row, g ∈ sorted →
        g "Orders" =
        Num (Qc_of_nat
               (nunique ((λ r : Row, r "InvoiceNo") <$>
                         filter (λ r : Row, r "CustomerID" = g "CustomerID")
                                (rows (View.df_f v))))).
Proof.
  apply (X8_top_customers argsort_mergesort [example_table] 0%nat
           example_table).
  - apply argsort_mergesort_ok.
  - reflexivity.
  - apply (bool_decide_unpack _). vm_compute. exact I.
Defined.

Lemma grouped_total f by_ aggs c i :
  NoDup (by_ ++ (agg_out <$> aggs)) →
  aggs !! i = Some (named c c agg_sum) →
  Forall (λ r : Row, NaN ∉ key_of by_ r) (rows f) →
  total c (rows (grouped f by_ aggs)) = total c (rows f).
Proof.
  intros Hnd Hi Hkeys. cbn [grouped rows]. rewrite total_fmap.
  rewrite <- (total_partition (key_of by_) c (group_keys by_ (rows f))).
  - f_equal. apply list_fmap_ext. intros _ k _. simpl.
    by rewrite (group_row_out _ _ _ _ (named c c agg_sum) i).
  - apply NoDup_group_keys.
  - apply Forall_forall. intros r Hr. apply elem_of_group_keys.
    split; [|by exists r]. by eapply Forall_forall in Hkeys.
Qed.

Lemma shows_country_total argsort d date_start date_end country_sel top_n v
    (countries : list Cell) :
  ArgsortDesc argsort →
  Shows argsort d date_start date_end country_sel top_n v →
  (length countries ≤ 15)%nat → NaN ∉ countries →
  Forall (λ r : Row, r "Country" ∈ countries) (rows (View.df_f v)) →
  (length (rows (View.country v)) ≤ length countries)%nat ∧
  total "Revenue" (rows (View.country v)) = View.total_revenue v.
Proof.
  intros Hsort Hv Hlen Hnan Hin.
  destruct (shows_total_revenue _ _ _ _ _ _ _ Hv) as (-> & _ & _).
  destruct (ranking_sorted _ _ _ _ _ _ Hsort (shows_country _ _ _ _ _ _ _ Hv))
    as (sorted & -> & Hp & _).
  assert (length sorted ≤ length countries)%nat as Hfew.
  { rewrite Hp. cbn [grouped rows]. rewrite length_fmap.
    transitivity (length ((λ c, [c]) <$> countries));
      [|by rewrite length_fmap].
    apply submseteq_length, NoDup_submseteq; [apply NoDup_group_keys|].
    intros k (_ & r & Hr & <-)%elem_of_group_keys.
    apply list_elem_of_fmap. exists (r "Country"). split; [done|].
    by eapply Forall_forall in Hin. }
  rewrite take_ge by lia. split; [done|].
  rewrite (total_Permutation _ _ _ Hp).
  apply (grouped_total _ _ _ _ 0); [solve_in|done|].
  eapply Forall_impl; [done|]. intros r Hr. cbn beta in Hr. unfold key_of.
  simpl. intros [?|[]%elem_of_nil]%elem_of_cons. congruence.
Qed.



(** ** Wider filters, more rows *)

Lemma ts_le_trans a b c : ts_le a b → ts_le b c → ts_le a c.
Proof.
  unfold ts_le, ts_leb, ts_compare, lex.
  destruct a as [y1 m1 d1 n1], b as [y2 m2 d2 n2], c as [y3 m3 d3 n3].
  cbn [year month day nanos].
  destruct (Z.compare_spec y1 y2), (Z.compare_spec y2 y3),
    (Z.compare_spec y1 y3); try done; try lia;
  destruct (Z.compare_spec m1 m2), (Z.compare_spec m2 m3),
    (Z.compare_spec m1 m3); try done; try lia;
  destruct (Z.compare_spec d1 d2), (Z.compare_spec d2 d3),
    (Z.compare_spec d1 d3); try done; try lia;
  destruct (Z.compare_spec n1 n2), (Z.compare_spec n2 n3),
    (Z.compare_spec n1 n3); try done; lia.
Qed.

Lemma filter_sublist_impl {A} (P Q : A → Prop) `{!∀ x, Decision (P x)}
    `{!∀ x, Decision (Q x)} (l : list A) :
  (∀ x, P x → Q x) → filter P l `sublist_of` filter Q l.
Proof.
  intros HPQ. induction l as [|x l IH]; [done|]. rewrite !filter_cons.
  destruct (decide (P x)) as [HP|HP].
  - rewrite decide_True by auto. by apply sublist_skip.
  - destruct (decide (Q x)); [by apply sublist_cons|done].
Qed.

(** X10. Widening the filters never loses a row: when the date range
    grows and the selection of countries grows or is cleared (an empty
    selection stands for every country), the rows kept before are among
    the rows kept now, in the same order. *)
Theorem X10_filter_monotone argsort h df d start1 end1 sel1 start2 end2 sel2
    top_n :
  h !! df = Some d → WellFormed d →
  ts_le (to_datetime start2) (to_datetime start1) →
  ts_le (to_datetime end1) (to_datetime end2) →
  sel2 = [] ∨ (sel1 ≠ [] ∧ sel1 ⊆ sel2) →
  ∃ v1 h1 v2 h2,
    dashboard argsort df [start1; end1] sel1 top_n h = Ok (v1, h1) ∧
    dashboard argsort df [start2; end2] sel2 top_n h = Ok (v2, h2) ∧
    rows (View.df_f v1) `sublist_of` rows (View.df_f v2).
Proof.
  intros Hdf Hwf Hstart Hend Hsel.
  destruct (run_shows argsort h df d start1 end1 sel1 top_n Hdf Hwf)
    as (v1 & h1 & Hrun1 & Hv1 & _ & _).
  destruct (run_shows argsort h df d start2 end2 sel2 top_n Hdf Hwf)
    as (v2 & h2 & Hrun2 & Hv2 & _ & _).
  exists v1, h1, v2, h2. split; [done|]. split; [done|].
  rewrite (shows_rows _ _ _ _ _ _ _ Hv1), (shows_rows _ _ _ _ _ _ _ Hv2).
  apply filter_sublist_impl. intros r [(t & Ht & H1 & H2) Hc]. split.
  - exists t. split; [done|]. split; by eapply ts_le_trans.
  - destruct Hsel as [->|[Hne Hsub]]; [by left|right].
    destruct Hc as [?|Hc]; [done|]. by apply Hsub.
Qed.

Lemma X10_filter_monotone_witness :
  ∃ v1 h1 v2 h2,
    dashboard argsort_mergesort 0%nat [mkDate 2024 1 15; mkDate 2024 1 31]
      [Str "UK"] 10 [example_table] = Ok (v1, h1) ∧
    dashboard argsort_mergesort 0%nat [mkDate 2024 1 1; mkDate 2024 12 31]
      [] 10 [example_table] = Ok (v2, h2) ∧
    rows (View.df_f v1) `sublist_of` rows (View.df_f v2).
Proof.
  apply (X10_filter_monotone argsort_mergesort [example_table] 0%nat
           example_table).
  - reflexivity.
  - apply (bool_decide_unpack _). vm_compute. exact I.
  - reflexivity.
  - reflexivity.
  - by left.
Defined.

(** ** Orders *)

Lemma nunique_le_length s : (nunique s ≤ length s)%nat.
Proof.
  unfold nunique. etransitivity; [|apply (length_filter (λ c, c ≠ NaN))].
  apply submseteq_length, NoDup_submseteq; [apply NoDup_remove_dups|].
  intros c. by rewrite elem_of_remove_dups.
Qed.

Lemma nunique_0 s : nunique s = 0%nat ↔ Forall (λ c, c = NaN) s.
Proof.
  unfold nunique. rewrite length_zero_iff_nil. split.
  - intros Hnil. apply Forall_forall. intros c Hc.
    destruct (decide (c = NaN)) as [|Hne]; [done|].
    assert (c ∈ remove_dups (filter (λ c, c ≠ NaN) s)) as Hin
      by by apply elem_of_remove_dups, list_elem_of_filter.
    rewrite Hnil in Hin. by apply elem_of_nil in Hin.
  - intros Hall. apply elem_of_nil_inv. intros c.
    rewrite elem_of_remove_dups, list_elem_of_filter. intros [Hne Hc].
    by eapply Forall_forall in Hall.
Qed.



(** ** The sidebar *)

Lemma sidebar_run argsort h df d :
  h !! df = Some d →
  sidebar argsort df h =
  match sidebar_of argsort d with
  | Ok sb => Ok (sb, h)
  | Raise e => Raise e
  end.
Proof.
  intros Hdf. unfold sidebar, sidebar_of. repeat run_step.
Qed.

(** *** The proposed date range *)

Lemma ts_le_total a b : ts_leb a b = false → ts_le b a.
Proof.
  unfold ts_le, ts_leb, ts_compare, lex.
  destruct a as [y1 m1 d1 n1], b as [y2 m2 d2 n2].
  cbn [year month day nanos].
  destruct (Z.compare_spec y1 y2), (Z.compare_spec y2 y1); try done; try lia;
  destruct (Z.compare_spec m1 m2), (Z.compare_spec m2 m1); try done; try lia;
  destruct (Z.compare_spec d1 d2), (Z.compare_spec d2 d1); try done; try lia;
  destruct (Z.compare_spec n1 n2), (Z.compare_spec n2 n1); try done; lia.
Qed.

Lemma midnight_le t : (0 ≤ nanos t)%Z → ts_le (to_datetime (date_of t)) t.
Proof.
  intros Hn. unfold ts_le, ts_leb, ts_compare, lex. destruct t as [y m d n].
  cbn [to_datetime date_of year month day nanos d_year d_month d_day] in *.
  rewrite !Z.compare_refl. by destruct (Z.compare_spec 0 n); try lia.
Qed.

Lemma midnight_lt t : (0 < nanos t)%Z → ¬ ts_le t (to_datetime (date_of t)).
Proof.
  intros Hn. unfold ts_le, ts_leb, ts_compare, lex. destruct t as [y m d n].
  cbn [to_datetime date_of year month day nanos d_year d_month d_day] in *.
  rewrite !Z.compare_refl. by destruct (Z.compare_spec n 0); try lia.
Qed.

Lemma series_min_dates s :
  Forall is_date s →
  ∃ m, series_min s = Ok m ∧
       match m with
       | Ts t => Ts t ∈ s ∧ ∀ t', Ts t' ∈ s → ts_le t t'
       | NaN => Forall (λ c, c = NaN) s
       | _ => False
       end.
Proof.
  unfold series_min. induction 1 as [|c s Hc _ (m & Hm & IH)].
  - exists NaN. by split.
  - cbn [reduce]. rewrite Hm. cbn [rbind].
    destruct c as [| | |x]; try done.
    + exists m. split; [done|]. destruct m as [| | |y]; try done.
      * by constructor.
      * destruct IH as [Hin Hmin]. split; [by right|].
        intros t' [[=]|Ht']%elem_of_cons. by apply Hmin.
    + destruct m as [| | |y]; try done.
      * exists (Ts x). split; [done|]. split; [by left|].
        intros t' [[= ->]|Ht']%elem_of_cons; [apply ts_le_refl|].
        eapply Forall_forall in IH; [|exact Ht']. done.
      * destruct IH as [Hin Hmin]. simpl. destruct (ts_leb x y) eqn:Hxy.
        -- exists (Ts x). split; [done|]. split; [by left|].
           intros t' [[= ->]|Ht']%elem_of_cons; [apply ts_le_refl|].
           eapply ts_le_trans; [exact Hxy|by apply Hmin].
        -- exists (Ts y). split; [done|]. split; [by right|].
           intros t' [[= ->]|Ht']%elem_of_cons; [by apply ts_le_total|].
           by apply Hmin.
Qed.

Lemma series_max_dates s :
  Forall is_date s →
  ∃ m, series_max s = Ok m ∧
       match m with
       | Ts t => Ts t ∈ s ∧ ∀ t', Ts t' ∈ s → ts_le t' t
       | NaN => Forall (λ c, c = NaN) s
       | _ => False
       end.
Proof.
  unfold series_max. induction 1 as [|c s Hc _ (m & Hm & IH)].
  - exists NaN. by split.
  - cbn [reduce]. rewrite Hm. cbn [rbind].
    destruct c as [| | |x]; try done.
    + exists m. split; [done|]. destruct m as [| | |y]; try done.
      * by constructor.
      * destruct IH as [Hin Hmax]. split; [by right|].
        intros t' [[=]|Ht']%elem_of_cons. by apply Hmax.
    + destruct m as [| | |y]; try done.
      * exists (Ts x). split; [done|]. split; [by left|].
        intros t' [[= ->]|Ht']%elem_of_cons; [apply ts_le_refl|].
        eapply Forall_forall in IH; [|exact Ht']. done.
      * destruct IH as [Hin Hmax]. simpl. destruct (ts_leb x y) eqn:Hxy.
        -- exists (Ts y). split; [done|]. split; [by right|].
           intros t' [[= ->]|Ht']%elem_of_cons; [exact Hxy|].
           by apply Hmax.
        -- exists (Ts x). split; [done|]. split; [by left|].
           intros t' [[= ->]|Ht']%elem_of_cons; [apply ts_le_refl|].
           eapply ts_le_trans; [by apply Hmax|by apply ts_le_total].
Qed.

(** X12. The date range the sidebar proposes runs from the day of the
    earliest invoice to the day of the latest one. The script turns both
    days into midnight, so with this range no row is too early, but a row
    is kept only when it is not later than midnight of the latest day: the
    invoices of the latest moment are dropped unless that moment is
    midnight. *)
Theorem X12_default_date_range argsort h df d country_sel top_n :
  h !! df = Some d → WellFormed d →
  Forall (λ r : Row, valid_time (r "InvoiceDate")) (rows d) →
  Exists (λ r : Row, r "InvoiceDate" ≠ NaN) (rows d) →
  ∃ sb first last v h',
    sidebar argsort df h = Ok (sb, h) ∧
    Sidebar.min_date sb = Some (date_of first) ∧
    Sidebar.max_date sb = Some (date_of last) ∧
    (∃ r : Row, r ∈ rows d ∧ r "InvoiceDate" = Ts last) ∧
    (∀ (r : Row) t, r ∈ rows d → r "InvoiceDate" = Ts t →
       ts_le first t ∧ ts_le t last) ∧
    dashboard argsort df [date_of first; date_of last] country_sel top_n h
      = Ok (v, h') ∧
    (∀ (r : Row) t, r ∈ rows d → r "InvoiceDate" = Ts t →
       (r ∈ rows (View.df_f v) ↔
        ts_le t (to_datetime (date_of last)) ∧
        (country_sel = [] ∨ r "Country" ∈ country_sel))) ∧
    ((0 < nanos last)%Z →
     ∀ r : Row, r "InvoiceDate" = Ts last → r ∉ rows (View.df_f v)).
Proof.
  intros Hdf Hwf Hvalid Hsome.
  pose proof Hwf as (Hcols & _ & Hdates)%WellFormed_iff.
  set (s := (λ r : Row, r "InvoiceDate") <$> rows d).
  assert (Forall is_date s) as Hs by by apply Forall_column.
  assert (∀ t, Ts t ∈ s ↔ ∃ r : Row, r ∈ rows d ∧ r "InvoiceDate" = Ts t)
    as Hin.
  { intros t. unfold s. rewrite list_elem_of_fmap. split.
    - intros (r & Hr & ?). by exists r.
    - intros (r & ? & Hr). by exists r. }
  assert (¬ Forall (λ c, c = NaN) s) as Hnot.
  { intros Hall. apply Forall_column in Hall.
    apply Exists_exists in Hsome as (r & Hr & Hne).
    by eapply Forall_forall in Hall. }
  destruct (series_min_dates s Hs) as (lo & Hlo & Hmin).
  destruct (series_max_dates s Hs) as (hi & Hhi & Hmax).
  destruct lo as [| | |first]; try done. destruct hi as [| | |last]; try done.
  destruct Hmin as [Hfirst Hmin], Hmax as [Hlast Hmax].
  destruct (run_shows argsort h df d (date_of first) (date_of last)
              country_sel top_n Hdf Hwf) as (v & h' & Hrun & Hv & _ & _).
  exists (Sidebar.mk (Some (date_of first)) (Some (date_of last))
            (value_counts argsort ((λ r : Row, r "Country") <$> rows d)).*1
            (take 3
               (value_counts argsort
                  ((λ r : Row, r "Country") <$> rows d)).*1)),
    first, last, v, h'.
  split.
  { rewrite (sidebar_run _ _ _ _ Hdf). unfold sidebar_of.
    rewrite !column_in by (apply Hcols; solve_in). cbn [rbind].
    fold s. rewrite Hlo, Hhi. done. }
  split; [done|]. split; [done|]. split; [by apply Hin|].
  assert (∀ (r : Row) t, r ∈ rows d → r "InvoiceDate" = Ts t →
            ts_le first t ∧ ts_le t last) as Hbounds.
  { intros r t Hr Ht. split; [apply Hmin|apply Hmax]; apply Hin; by exists r. }
  split; [done|]. split; [done|].
  assert (ts_le (to_datetime (date_of first)) first) as Hmid.
  { apply midnight_le. apply Hin in Hfirst as (r & Hr & Ht).
    eapply Forall_forall in Hvalid; [|done]. by rewrite Ht in Hvalid. }
  split.
  - intros r t Hr Ht. rewrite (shows_rows _ _ _ _ _ _ _ Hv).
    rewrite list_elem_of_filter. unfold keeps, in_date_range. split.
    + intros [[(t' & Ht' & _ & Hle) Hc] _]. rewrite Ht in Ht'.
      by injection Ht' as <-.
    + intros [Hle Hc]. split; [|done]. split; [|done].
      exists t. split; [done|]. split; [|done].
      eapply ts_le_trans; [done|]. by eapply Hbounds.
  - intros Hlate r Ht. rewrite (shows_rows _ _ _ _ _ _ _ Hv).
    rewrite list_elem_of_filter. unfold keeps, in_date_range.
    intros [[(t' & Ht' & _ & Hle) _] _]. rewrite Ht in Ht'.
    injection Ht' as <-. by apply (midnight_lt last).
Qed.

Lemma X12_default_date_range_witness :
  ∃ sb first last v h',
    sidebar argsort_mergesort 0%nat [example_table]
      = Ok (sb, [example_table]) ∧
    Sidebar.min_date sb = Some (date_of first) ∧
    Sidebar.max_date sb = Some (date_of last) ∧
    (∃ r : Row, r ∈ rows example_table ∧ r "InvoiceDate" = Ts last) ∧
    (∀ (r : Row) t, r ∈ rows example_table → r "InvoiceDate" = Ts t →
       ts_le first t ∧ ts_le t last) ∧
    dashboard argsort_mergesort 0%nat [date_of first; date_of last]
      [Str "UK"] 10 [example_table] = Ok (v, h') ∧
    (∀ (r : Row) t, r ∈ rows example_table → r "InvoiceDate" = Ts t →
       (r ∈ rows (View.df_f v) ↔
        ts_le t (to_datetime (date_of last)) ∧
        ([Str "UK"] = [] ∨ r "Country" ∈ [Str "UK"]))) ∧
    ((0 < nanos last)%Z →
     ∀ r : Row, r "InvoiceDate" = Ts last → r ∉ rows (View.df_f v)).
Proof.
  apply (X12_default_date_range argsort_mergesort [example_table] 0%nat
           example_table).
  - reflexivity.
  - apply (bool_decide_unpack _). vm_compute. exact I.
  - apply (bool_decide_unpack _). vm_compute. exact I.
  - apply (bool_decide_unpack _). vm_compute. exact I.
Defined.

(** *** The countries offered and preselected *)

Lemma elem_of_unique c s : c ∈ unique s ↔ c ∈ s.
Proof.
  induction s as [|x s IH]; [done|]. cbn [unique].
  rewrite !elem_of_cons, list_elem_of_filter, IH. split.
  - intros [->|[_ ?]]; [by left|by right].
  - intros [->|?]; [by left|].
    destruct (decide (c = x)) as [->|]; [by left|by right].
Qed.

Lemma NoDup_unique s : NoDup (unique s).
Proof.
  induction s as [|x s IH]; [constructor|]. cbn [unique]. constructor.
  - by intros [? _]%list_elem_of_filter.
  - by apply NoDup_filter.
Qed.

Lemma Qc_of_nat_le a b : Qc_of_nat a ≤ Qc_of_nat b ↔ (a ≤ b)%nat.
Proof.
  unfold Qc_of_nat, Qc_of_Z, Qcle. simpl. rewrite !Qred_correct.
  rewrite <- Zle_Qle. lia.
Qed.

Global Instance by_count_desc_trans s : Transitive (by_count_desc s).
Proof. unfold by_count_desc. intros a b c ??. lia. Qed.

Lemma omap_lookup_Sorted_by {A} (l : list A) (w : A → Qc) (R : relation A)
    idx :
  (∀ x y, x ∈ l → y ∈ l → w y ≤ w x → R x y) →
  Forall (λ i, i < length l)%nat idx →
  Sorted (descending (w <$> l)) idx →
  Sorted R (omap (λ i, l !! i) idx).
Proof.
  intros HR Hlt Hs. induction Hs as [|x idx Hs IH Hhd]; [constructor|].
  apply Forall_cons in Hlt as [Hx Hlt]. simpl.
  destruct (lookup_lt_is_Some_2 l x Hx) as [r Hr]. rewrite Hr.
  constructor; [by apply IH|].
  destruct Hhd as [|y idx Hxy]; [constructor|].
  apply Forall_cons in Hlt as [Hy _]. simpl.
  destruct (lookup_lt_is_Some_2 l y Hy) as [r' Hr']. rewrite Hr'.
  constructor. apply HR; [by eapply list_elem_of_lookup_2..|].
  unfold descending in Hxy. by rewrite !list_lookup_fmap, Hr, Hr' in Hxy.
Qed.

Section ValueCounts.
Context (argsort : list Qc → list nat) (Hsort : ArgsortDesc argsort).

Lemma value_counts_Permutation s :
  (value_counts argsort s).*1 ≡ₚ unique (filter (λ c, c ≠ NaN) s).
Proof using Hsort.
  unfold value_counts. set (keys := unique _).
  rewrite omap_lookup_Permutation.
  - rewrite <- list_fmap_compose. by rewrite list_fmap_id.
  - by rewrite (argsort_perm _ Hsort), length_fmap.
Qed.

Lemma value_counts_Sorted s :
  Sorted (by_count_desc s) (value_counts argsort s).*1.
Proof using Hsort.
  unfold value_counts. set (keys := unique _).
  set (table := (λ c, (c, count c s)) <$> keys).
  apply (Sorted_fmap _ (λ p q : Cell * nat, by_count_desc s p.1 q.1));
    [done|].
  apply (omap_lookup_Sorted_by _ (λ p, Qc_of_nat p.2)).
  - intros p q (a & -> & _)%list_elem_of_fmap (b & -> & _)%list_elem_of_fmap.
    simpl. by rewrite Qc_of_nat_le.
  - rewrite (argsort_perm _ Hsort). apply Forall_forall. intros i Hi.
    apply elem_of_seq in Hi. rewrite length_fmap in Hi. lia.
  - apply (argsort_sorted _ Hsort).
Qed.
End ValueCounts.

(** X13. The countries the sidebar offers are the countries of the
    table, each once and none missing, ordered by their number of rows
    downwards; the preselected ones are the first three of them (all of
    them when there are fewer), so no country left out has more rows than
    a preselected one. *)
Theorem X13_default_countries argsort h df d :
  ArgsortDesc argsort → h !! df = Some d → WellFormed d →
  ∃ sb,
    sidebar argsort df h = Ok (sb, h) ∧
    NoDup (Sidebar.options sb) ∧
    (∀ c, c ∈ Sidebar.options sb ↔
          c ≠ NaN ∧ ∃ r : Row, r ∈ rows d ∧ r "Country" = c) ∧
    Sorted (by_count_desc ((λ r : Row, r "Country") <$> rows d))
      (Sidebar.options sb) ∧
    Sidebar.default sb = take 3 (Sidebar.options sb) ∧
    (∀ a b, a ∈ Sidebar.default sb → b ∈ Sidebar.options sb →
            b ∉ Sidebar.default sb →
            by_count_desc ((λ r : Row, r "Country") <$> rows d) a b).
Proof.
  intros Hsort Hdf Hwf.
  pose proof Hwf as (Hcols & _ & Hdates)%WellFormed_iff.
  set (s := (λ r : Row, r "InvoiceDate") <$> rows d).
  set (c := (λ r : Row, r "Country") <$> rows d).
  assert (Forall is_date s) as Hs by by apply Forall_column.
  destruct (series_min_dates s Hs) as (lo & Hlo & Hmin).
  destruct (series_max_dates s Hs) as (hi & Hhi & Hmax).
  assert (∃ min_date, ts_date lo = Ok min_date) as [min_date Hdlo]
    by (destruct lo; try done; by eexists).
  assert (∃ max_date, ts_date hi = Ok max_date) as [max_date Hdhi]
    by (destruct hi; try done; by eexists).
  exists (Sidebar.mk min_date max_date (value_counts argsort c).*1
            (take 3 (value_counts argsort c).*1)).
  split.
  { rewrite (sidebar_run _ _ _ _ Hdf). unfold sidebar_of.
    rewrite !column_in by (apply Hcols; solve_in). cbn [rbind].
    fold s c. rewrite Hlo. cbn [rbind]. rewrite Hdlo. cbn [rbind].
    rewrite Hhi. cbn [rbind]. by rewrite Hdhi. }
  cbn [Sidebar.options Sidebar.default].
  pose proof (value_counts_Permutation argsort Hsort c) as Hp.
  pose proof (value_counts_Sorted argsort Hsort c) as Hsorted.
  split; [rewrite Hp; apply NoDup_unique|]. split.
  { intros x. rewrite Hp, elem_of_unique, list_elem_of_filter.
    unfold c. rewrite list_elem_of_fmap. split.
    - intros [Hne (r & -> & Hr)]. split; [done|]. by exists r.
    - intros [Hne (r & Hr & <-)]. split; [done|]. by exists r. }
  split; [done|]. split; [done|].
  intros a b Ha Hb Hnot.
  apply Sorted_StronglySorted in Hsorted; [|apply _].
  rewrite <- (take_drop 3 (value_counts argsort c).*1) in Hsorted, Hb.
  eapply StronglySorted_app_1_elem_of; [done..|].
  by apply elem_of_app in Hb as [?|?].
Qed.

Lemma X13_default_countries_witness :
  ∃ sb,
    sidebar argsort_mergesort 0%nat [example_table]
      = Ok (sb, [example_table]) ∧
    NoDup (Sidebar.options sb) ∧
    (∀ c, c ∈ Sidebar.options sb ↔
          c ≠ NaN ∧ ∃ r : Row, r ∈ rows example_table ∧ r "Country" = c) ∧
    Sorted (by_count_desc ((λ r : Row, r "Country") <$> rows example_table))
      (Sidebar.options sb) ∧
    Sidebar.default sb = take 3 (Sidebar.options sb) ∧
    (∀ a b, a ∈ Sidebar.default sb → b ∈ Sidebar.options sb →
            b ∉ Sidebar.default sb →
            by_count_desc ((λ r : Row, r "Country") <$> rows example_table)
              a b).
Proof.
  apply (X13_default_countries argsort_mergesort [example_table] 0%nat
           example_table).
  - apply argsort_mergesort_ok.
  - reflexivity.
  - apply (bool_decide_unpack _). vm_compute. exact I.
Defined.

(** ** The order count as the page prints it *)

Example format_thousands_examples :
  format_thousands 0 = "0" ∧ format_thousands 999 = "999" ∧
  format_thousands 1000 = "1,000" ∧ format_thousands (Z.to_nat 1234567) = "1,234,567".
Proof. by vm_compute. Qed.

Lemma pretty_N_char_digit x : digit (pretty_N_char x).
Proof.
  unfold pretty_N_char.
  repeat case_match; apply (bool_decide_unpack _); by vm_compute.
Qed.

Lemma pretty_N_go_digits x : ∀ s,
  Forall digit (list_ascii_of_string s) →
  Forall digit (list_ascii_of_string (pretty_N_go x s)).
Proof.
  induction (N.lt_wf_0 x) as [x _ IH]. intros s Hs.
  destruct (decide (x = 0)%N) as [->|Hx]; [by rewrite pretty_N_go_0|].
  rewrite pretty_N_go_step by lia. apply IH.
  - apply N.div_lt; lia.
  - simpl. constructor; [apply pretty_N_char_digit|done].
Qed.

Lemma pretty_nat_digits (n : nat) :
  Forall digit (list_ascii_of_string (pretty n)).
Proof.
  change (pretty n) with (pretty (N.of_nat n)).
  change (pretty (N.of_nat n)) with
    (if decide (N.of_nat n = 0)%N then "0"%string
     else pretty_N_go (N.of_nat n) "").
  case_decide.
  - repeat constructor.
  - apply pretty_N_go_digits. constructor.
Qed.

Lemma digit_not_comma a : digit a → a ≠ ","%char.
Proof.
  intros Ha ->. revert Ha. apply (bool_decide_unpack _). by vm_compute.
Qed.

(** Induction over the digits, three at a time. *)
Lemma thousands_ind (P : list ascii → Prop) :
  (∀ l, (length l ≤ 3)%nat → P l) →
  (∀ a b c d rest, P (d :: rest) → P (a :: b :: c :: d :: rest)) →
  ∀ l, P l.
Proof.
  intros Hshort Hstep l. remember (length l) as n eqn:Hn. revert l Hn.
  induction n as [n IH] using lt_wf_ind. intros l ->.
  destruct l as [|a [|b [|c [|d rest]]]];
    try (apply Hshort; simpl; lia).
  apply Hstep, (IH (length (d :: rest))); [simpl; lia|done].
Qed.

Lemma thousands_short l : (length l ≤ 3)%nat → thousands l = l.
Proof. by destruct l as [|a [|b [|c [|d rest]]]]; simpl; try lia. Qed.

Lemma thousands_filter l :
  Forall digit l → filter (λ a, a ≠ ","%char) (thousands l) = l.
Proof.
  assert (∀ l, Forall digit l → filter (λ a, a ≠ ","%char) l = l) as Hall.
  { clear l. intros l Hl. induction Hl as [|a l Ha _ IH]; [done|].
    rewrite filter_cons_True by by apply digit_not_comma. by rewrite IH. }
  induction l as [l Hl|a b c d rest IH] using thousands_ind; intros Hd.
  - rewrite thousands_short by done. by apply Hall.
  - change (thousands (a :: b :: c :: d :: rest)) with
      (a :: b :: c :: ","%char :: thousands (d :: rest)).
    apply Forall_cons in Hd as [Ha Hd]. apply Forall_cons in Hd as [Hb Hd].
    apply Forall_cons in Hd as [Hc Hd].
    rewrite !filter_cons_True by by apply digit_not_comma.
    rewrite filter_cons_False by (intros H; by apply H).
    by rewrite IH.
Qed.

Lemma thousands_commas l :
  Forall digit l →
  ∀ i, thousands l !! i = Some ","%char ↔
       (i `mod` 4 = 3 ∧ i < length (thousands l))%nat.
Proof.
  induction l as [l Hl|a b c d rest IH] using thousands_ind; intros Hd i.
  - rewrite thousands_short by done. split.
    + intros Hi. apply list_elem_of_lookup_2 in Hi.
      eapply Forall_forall in Hd; [|done]. by apply digit_not_comma in Hd.
    + intros [Hmod Hlt]. rewrite Nat.mod_small in Hmod by lia. lia.
  - change (thousands (a :: b :: c :: d :: rest)) with
      (a :: b :: c :: ","%char :: thousands (d :: rest)).
    apply Forall_cons in Hd as [Ha Hd]. apply Forall_cons in Hd as [Hb Hd].
    apply Forall_cons in Hd as [Hc Hd]. specialize (IH Hd).
    destruct i as [|[|[|[|j]]]]; cbn [lookup list_lookup length].
    + split; [intros [= ->]; by apply digit_not_comma in Ha|].
      intros [Hmod _]. by rewrite Nat.mod_small in Hmod by lia.
    + split; [intros [= ->]; by apply digit_not_comma in Hb|].
      intros [Hmod _]. by rewrite Nat.mod_small in Hmod by lia.
    + split; [intros [= ->]; by apply digit_not_comma in Hc|].
      intros [Hmod _]. by rewrite Nat.mod_small in Hmod by lia.
    + split; [intros _|done]. split; [done|lia].
    + rewrite (IH j).
      replace (S (S (S (S j)))) with (j + 1 * 4)%nat by lia.
      rewrite Nat.Div0.mod_add. split; intros [? ?]; (split; [done|lia]).
Qed.

Lemma length_list_ascii s :
  length (list_ascii_of_string s) = String.length s.
Proof. induction s as [|a s IH]; simpl; [done|by rewrite IH]. Qed.

(** X14. The order count is printed with its decimal digits unchanged and
    in order, commas apart; read from the right, every fourth character
    and no other is a comma; and different counts print differently. *)
Theorem X14_format_thousands (n : nat) :
  filter (λ a, a ≠ ","%char) (list_ascii_of_string (format_thousands n))
    = list_ascii_of_string (pretty n) ∧
  (∀ i, reverse (list_ascii_of_string (format_thousands n)) !! i
          = Some ","%char ↔
        (i `mod` 4 = 3 ∧ i < String.length (format_thousands n))%nat) ∧
  (∀ m : nat, format_thousands n = format_thousands m → n = m).
Proof.
  assert (∀ k : nat,
    filter (λ a, a ≠ ","%char) (list_ascii_of_string (format_thousands k))
    = list_ascii_of_string (pretty k)) as Hdigits.
  { intros k. unfold format_thousands.
    rewrite list_ascii_of_string_of_list_ascii, filter_reverse.
    rewrite thousands_filter, reverse_involutive; [done|].
    apply Forall_reverse, pretty_nat_digits. }
  split; [apply Hdigits|]. split.
  - intros i. unfold format_thousands.
    rewrite <- (length_list_ascii (string_of_list_ascii _)).
    rewrite list_ascii_of_string_of_list_ascii, reverse_involutive.
    rewrite length_reverse. apply thousands_commas.
    apply Forall_reverse, pretty_nat_digits.
  - intros m Heq.
    apply (inj (pretty : nat → string)). 
    rewrite <- (string_of_list_ascii_of_string (pretty n)),
      <- (string_of_list_ascii_of_string (pretty m)).
    by rewrite <- !Hdigits, Heq.
Qed.

(** ** The first page *)

Lemma sidebar_dates argsort h df d :
  h !! df = Some d → WellFormed d →
  Exists (λ r : Row, r "InvoiceDate" ≠ NaN) (rows d) →
  ∃ first last,
    sidebar argsort df h =
      Ok (Sidebar.mk (Some (date_of first)) (Some (date_of last))
            (value_counts argsort ((λ r : Row, r "Country") <$> rows d)).*1
            (take 3
               (value_counts argsort
                  ((λ r : Row, r "Country") <$> rows d)).*1), h) ∧
    (∃ r : Row, r ∈ rows d ∧ r "InvoiceDate" = Ts first) ∧
    (∃ r : Row, r ∈ rows d ∧ r "InvoiceDate" = Ts last) ∧
    (∀ (r : Row) t, r ∈ rows d → r "InvoiceDate" = Ts t →
       ts_le first t ∧ ts_le t last).
Proof.
  intros Hdf Hwf Hsome.
  pose proof Hwf as (Hcols & _ & Hdates)%WellFormed_iff.
  set (s := (λ r : Row, r "InvoiceDate") <$> rows d).
  assert (Forall is_date s) as Hs by by apply Forall_column.
  assert (∀ t, Ts t ∈ s ↔ ∃ r : Row, r ∈ rows d ∧ r "InvoiceDate" = Ts t)
    as Hin.
  { intros t. unfold s. rewrite list_elem_of_fmap. split.
    - intros (r & Hr & ?). by exists r.
    - intros (r & ? & Hr). by exists r. }
  assert (¬ Forall (λ c, c = NaN) s) as Hnot.
  { intros Hall. apply Forall_column in Hall.
    apply Exists_exists in Hsome as (r & Hr & Hne).
    by eapply Forall_forall in Hall. }
  destruct (series_min_dates s Hs) as (lo & Hlo & Hmin).
  destruct (series_max_dates s Hs) as (hi & Hhi & Hmax).
  destruct lo as [| | |first]; try done. destruct hi as [| | |last]; try done.
  destruct Hmin as [Hfirst Hmin], Hmax as [Hlast Hmax].
  exists first, last. split.
  { rewrite (sidebar_run _ _ _ _ Hdf). unfold sidebar_of.
    rewrite !column_in by (apply Hcols; solve_in). cbn [rbind].
    fold s. by rewrite Hlo, Hhi. }
  split; [by apply Hin|]. split; [by apply Hin|].
  intros r t Hr Ht. split; [apply Hmin|apply Hmax]; apply Hin; by exists r.
Qed.


